(** * arcade_universe: sprite placement with rejection sampling, and corruptors

    A shallow embedding of [src/arcade_universe/dataset.py] (class
    [SpritePlacer]) and [src/arcade_universe/corruptor.py] (the [Corruptor]
    classes and the factory [get]), with the properties the specification
    states about them.

    Conventions.
    - A two-dimensional numpy array is a list of rows together with its
      column count, so that a view with no row still has a shape.
    - Python integers are [Z]; list positions are [nat].
    - Real-valued quantities (corruption levels, noise, targets, rejection
      rates) are rationals [Q]: every finite double is one, and rounding is
      left out.
    - A call that raises is a result [Raise e]; an object mutated by a method
      is passed in and returned. Where two instances have to be told apart
      (module [Heap]), the random generators are objects in a store. *)

From stdpp Require Import base option list gmap strings.
From Stdlib Require Import ZArith QArith Qround Qabs Lia Lqa.

Local Open Scope Z_scope.

(** ** Python results *)

Inductive exn : Type :=
  | AssertionError
  | AttributeError
  | KeyError (key : string)
  | NameError (name : string)
  | TypeError
  | ValueError
  | NotImplementedError
  | StopIteration.

Inductive result (A : Type) : Type :=
  | Return (a : A)
  | Raise (e : exn).
Arguments Return {A} a.
Arguments Raise {A} e.

Definition rbind {A B} (r : result A) (k : A -> result B) : result B :=
  match r with
  | Return a => k a
  | Raise e => Raise e
  end.

#[global] Instance result_ret : MRet result := @Return.
#[global] Instance result_bind : MBind result := fun A B k r => rbind r k.

Definition is_Return {A} (r : result A) : bool :=
  match r with Return _ => true | Raise _ => false end.

(** ** numpy: two-dimensional arrays, basic slices, broadcasting *)

Module Numpy.

Record array2 (A : Type) : Type := Array2 { ncols : nat; rows : list (list A) }.
Arguments Array2 {A} ncols rows.
Arguments ncols {A} _.
Arguments rows {A} _.

(** Bound of a basic slice [lo:hi] on an axis of length [n]: a negative
    bound counts from the end, and the result is clamped to [0, n]. *)
Definition slice_index (n : nat) (i : Z) : nat :=
  Z.to_nat (if i <? 0 then Z.max 0 (i + Z.of_nat n) else Z.min i (Z.of_nat n)).

Definition slice1 {B} (n : nat) (lo hi : Z) (l : list B) : list B :=
  take (slice_index n hi - slice_index n lo) (drop (slice_index n lo) l).

Section Array2.
Context {A : Type}.

Definition nrows (m : array2 A) : nat := length (rows m).

Definition shape (m : array2 A) : nat * nat := (nrows m, ncols m).

(** Every row has the declared number of columns. *)
Definition rect (m : array2 A) : Prop :=
  Forall (fun r => length r = ncols m) (rows m).

Definition get (m : array2 A) (i j : nat) : option A :=
  rows m !! i ≫= (fun r => r !! j).

(** [m[a:b, c:d]] read as a value. *)
Definition slice2 (m : array2 A) (a b c d : Z) : array2 A :=
  {| ncols := slice_index (ncols m) d - slice_index (ncols m) c;
     rows := fmap (M := list) (slice1 (ncols m) c d)
               (slice1 (nrows m) a b (rows m)) |}.

(** [numpy.zeros((h, w))] when [v] is zero: an array of [h] rows and [w]
    columns filled with [v]; a negative dimension is refused. *)
Definition full (h w : Z) (v : A) : result (array2 A) :=
  if (h <? 0) || (w <? 0) then Raise ValueError
  else Return {| ncols := Z.to_nat w;
                 rows := replicate (Z.to_nat h) (replicate (Z.to_nat w) v) |}.

(** [m.fill(v)] *)
Definition fill (m : array2 A) (v : A) : array2 A :=
  {| ncols := ncols m; rows := fmap (M := list) (fmap (M := list) (fun _ => v)) (rows m) |}.

(** [numpy.any(p(m))] *)
Definition any (p : A -> bool) (m : array2 A) : bool :=
  existsb (existsb p) (rows m).

(** [m.reshape(n)] for a one-dimensional target of [n] cells. *)
Definition reshape1 (m : array2 A) (n : Z) : result (list A) :=
  if n =? Z.of_nat (nrows m * ncols m) then Return (concat (rows m))
  else Raise ValueError.
End Array2.

(** An operand of axis length [src] broadcasts to an axis of length [dst]
    when the two are equal or the operand has length one. *)
Definition broadcastable (src dst : nat) : bool :=
  (src =? dst)%nat || (src =? 1)%nat.

Definition bidx (src k : nat) : nat := if (src =? 1)%nat then 0%nat else k.

Definition in_range (lo hi i : nat) : bool := (lo <=? i)%nat && (i <? hi)%nat.

(** [m[a:b, c:d] op= v] and [m[a:b, c:d] = v]: the view is updated in place
    with [f old new], [v] being broadcast to the shape of the view. *)
Definition update_slice {A B} (f : A -> B -> A) (m : array2 A) (a b c d : Z)
    (v : array2 B) : result (array2 A) :=
  let r0 := slice_index (nrows m) a in
  let r1 := slice_index (nrows m) b in
  let c0 := slice_index (ncols m) c in
  let c1 := slice_index (ncols m) d in
  if broadcastable (nrows v) (r1 - r0) && broadcastable (ncols v) (c1 - c0) then
    Return {| ncols := ncols m;
              rows := imap (fun i row =>
                if in_range r0 r1 i then
                  imap (fun j x =>
                    if in_range c0 c1 j then
                      match get v (bidx (nrows v) (i - r0)) (bidx (ncols v) (j - c0)) with
                      | Some y => f x y
                      | None => x
                      end
                    else x) row
                else row) (rows m) |}
  else Raise ValueError.

Definition iadd_slice := @update_slice Z Z Z.add.

Definition assign_slice {A} := @update_slice A A (fun _ new => new).

End Numpy.

Import Numpy.

(** ** dataset.py: sprites, the sprite source, the background supplier *)

Definition pixel : Type := Q.

(** Modelled from the spec: class [Sprite] is not part of the sources.
    A sprite has a visible [patch] of shape [(h, w)], a collision [mask] of
    shape [(mh, mw)] and margins [marginh], [marginw]. *)
Module Sprite.
Record t : Type := Make {
  h : Z; w : Z;
  marginh : Z; marginw : Z;
  mh : Z; mw : Z;
  patch : array2 pixel;
  mask : array2 Z }.

(** The data model of the spec: [mh = h + 2*marginh], [mw = w + 2*marginw],
    non-negative margins, and arrays of the declared shapes. *)
Record wf (s : t) : Prop := {
  wf_h : 0 <= h s; wf_w : 0 <= w s;
  wf_marginh : 0 <= marginh s; wf_marginw : 0 <= marginw s;
  wf_mh : mh s = h s + 2 * marginh s;
  wf_mw : mw s = w s + 2 * marginw s;
  wf_mask_shape : shape (mask s) = (Z.to_nat (mh s), Z.to_nat (mw s));
  wf_mask_rect : rect (mask s);
  wf_patch_shape : shape (patch s) = (Z.to_nat (h s), Z.to_nat (w s));
  wf_patch_rect : rect (patch s) }.
End Sprite.

Definition description : Type := list ((Z * Z) * Sprite.t).
Definition target : Type := list Q.
Definition proposal : Type := description * target.

(** The value of [out_dtype] is handed to [numpy.zeros] at line 117 and
    read nowhere else: it is modelled as the numpy type it names ([bits] is
    8, 16, 32 or 64), with the conversion numpy applies to a number stored
    into an array of that type: an integer type drops the fractional part
    and wraps around, a boolean type keeps whether the number is zero, and
    the rounding of a floating-point type is left out, as for every real
    value of this development. *)
Module Dtype.
Inductive t : Type :=
  | Bool
  | UInt (bits : Z)
  | Int (bits : Z)
  | Float (bits : Z).

(** The integer part of a number, rounded towards zero. *)
Definition truncate (v : Q) : Z := Z.quot (Qnum v) (Z.pos (Qden v)).

Definition cast (d : t) (v : Q) : Q :=
  match d with
  | Bool => if Qeq_bool v 0 then 0%Q else 1%Q
  | UInt bits => inject_Z (truncate v mod 2 ^ bits)
  | Int bits =>
      inject_Z ((truncate v + 2 ^ (bits - 1)) mod 2 ^ bits - 2 ^ (bits - 1))
  | Float _ => v
  end.
End Dtype.

(** The object [gen]: its attributes, and the proposals its iterator will
    hand out, in order ([gen.next()] takes the first one; an empty list is an
    exhausted iterator). *)
Module Source.
Record t : Type := Make {
  w : Z; h : Z;
  nout : Z;
  nclasses : option (list (option Z));
  out_format : string;
  out_dtype : Dtype.t;
  pending : list proposal }.
End Source.

(** [perlin.PerlinNoiseGenerator] is imported, not defined, by dataset.py:
    its constructor and [get_background_noise] are taken as an interface. *)
Class PerlinNoiseGenerator : Type := {
  perlin_state : Type;
  perlin_new : Z -> Z -> Z -> perlin_state;
  get_background_noise : perlin_state -> array2 pixel * perlin_state }.

Definition b2z (b : bool) : Z := if b then 1 else 0.

Module SpritePlacer.
Section WithPerlin.
Context `{PerlinNoiseGenerator}.

Record t : Type := Make {
  gen : Source.t;
  collision_check : bool;
  enable_perlin : bool;
  w : Z; h : Z; nin : Z;
  out_format : string;
  out_dtype : Dtype.t;
  nout : Z;
  nclasses : option (list (option Z));
  n_successes : Z;
  n_rejections : Z;
  perlin_gen : option perlin_state }.

Definition set_n_successes (self : t) (n : Z) : t :=
  Make (gen self) (collision_check self) (enable_perlin self) (w self) (h self)
    (nin self) (out_format self) (out_dtype self) (nout self) (nclasses self)
    n (n_rejections self) (perlin_gen self).

Definition set_n_rejections (self : t) (n : Z) : t :=
  Make (gen self) (collision_check self) (enable_perlin self) (w self) (h self)
    (nin self) (out_format self) (out_dtype self) (nout self) (nclasses self)
    (n_successes self) n (perlin_gen self).

Definition set_perlin_gen (self : t) (p : option perlin_state) : t :=
  Make (gen self) (collision_check self) (enable_perlin self) (w self) (h self)
    (nin self) (out_format self) (out_dtype self) (nout self) (nclasses self)
    (n_successes self) (n_rejections self) p.

(** [SpritePlacer.__init__] (lines 70-89). *)
Definition __init__ (gen : Source.t) (collision_check enable_perlin : bool)
    : result t :=
  let w := Source.w gen in
  let h := Source.h gen in
  if String.eqb (Source.out_format gen) "array" then
    Return (Make gen collision_check enable_perlin w h (w * h)
              (Source.out_format gen) (Source.out_dtype gen)
              (Source.nout gen) (Source.nclasses gen)
              0 0
              (if enable_perlin then Some (perlin_new w h 32) else None))
  else Raise AssertionError.

(** [SpritePlacer.rejection_rate] (lines 91-102); the instance is returned
    next to the value, the method assigning only its local [total]. *)
Definition rejection_rate (self : t) : option Q * t :=
  let total := n_successes self + n_rejections self in
  if total =? 0 then (None, self)
  else (Some (inject_Z (n_rejections self) / inject_Z total)%Q, self).

(** Lines 135-147: one sprite's mask added to the accumulator. *)
Definition accumulate_sprite (self : t) (collider : array2 Z) (x y : Z)
    (sprite : Sprite.t) : result (array2 Z) :=
  let a := y - Sprite.marginh sprite in
  let b := y + Sprite.h sprite + Sprite.marginh sprite in
  let c := x - Sprite.marginw sprite in
  let d := x + Sprite.w sprite + Sprite.marginw sprite in
  if (a <? 0) || (b >=? h self) || (c <? 0) || (d >=? w self) then
    let ba := b2z (a <? 0) * - a in
    let bb := Sprite.mh sprite - b2z (b >=? h self) * (b - h self + 1) in
    let bc := b2z (c <? 0) * - c in
    let bd := Sprite.mw sprite - b2z (d >=? w self) * (d - w self + 1) in
    let a' := Z.max 0 a in
    let b' := Z.min b (h self - 1) in
    let c' := Z.max 0 c in
    let d' := Z.min d (w self - 1) in
    iadd_slice collider a' b' c' d' (slice2 (Sprite.mask sprite) ba bb bc bd)
  else
    iadd_slice collider a b c d (Sprite.mask sprite).

(** The sprite's mask added at its margined footprint, restricted to the
    rows below [row_limit] and the columns below [col_limit] of the
    accumulator: the destination is the footprint cut at [0] and at the
    limits, the operand the part of the mask that falls there. *)
Definition add_footprint_within (row_limit col_limit : Z)
    (collider : array2 Z) (x y : Z) (sprite : Sprite.t) : result (array2 Z) :=
  let a := y - Sprite.marginh sprite in
  let b := y + Sprite.h sprite + Sprite.marginh sprite in
  let c := x - Sprite.marginw sprite in
  let d := x + Sprite.w sprite + Sprite.marginw sprite in
  let a' := Z.max 0 a in
  let b' := Z.min b row_limit in
  let c' := Z.max 0 c in
  let d' := Z.min d col_limit in
  iadd_slice collider a' b' c' d'
    (slice2 (Sprite.mask sprite) (a' - a) (b' - a) (c' - c) (d' - c)).

(** The accumulation step in the words of the specification: the in-bounds
    portion of the mask, at the in-bounds portion of the footprint, the
    canvas having rows [0, h) and columns [0, w). *)
Definition accumulate_sprite_spec (self : t) (collider : array2 Z) (x y : Z)
    (sprite : Sprite.t) : result (array2 Z) :=
  add_footprint_within (h self) (w self) collider x y sprite.

(** The mask cell that covers canvas cell [(i, j)] for a sprite at [(x, y)],
    and [0] outside the mask. *)
Definition mask_at (sprite : Sprite.t) (x y : Z) (i j : Z) : Z :=
  let a := y - Sprite.marginh sprite in
  let c := x - Sprite.marginw sprite in
  if (a <=? i) && (c <=? j) then
    default 0 (get (Sprite.mask sprite) (Z.to_nat (i - a)) (Z.to_nat (j - c)))
  else 0.

(** Lines 134-147: the loop over the description. *)
Fixpoint accumulate (self : t) (collider : array2 Z) (desc : description)
    : result (array2 Z) :=
  match desc with
  | [] => Return collider
  | ((x, y), sprite) :: rest =>
      collider' ← accumulate_sprite self collider x y sprite;
      accumulate self collider' rest
  end.

(** Line 149: the rejection test. *)
Definition has_collision (collider : array2 Z) : bool :=
  any (fun v => 255 <? v) collider
  || any (fun v => v =? 2) collider
  || any (fun v => v =? 3) collider.

(** Lines 120-121 and 153-154: the patches painted on the canvas. *)
Fixpoint paint (data : array2 pixel) (desc : description)
    : result (array2 pixel) :=
  match desc with
  | [] => Return data
  | ((x, y), sprite) :: rest =>
      data' ← assign_slice data y (y + Sprite.h sprite) x (x + Sprite.w sprite)
                (Sprite.patch sprite);
      paint data' rest
  end.

(** Line 117, [numpy.zeros((self.nout,), dtype = self.out_dtype)]. *)
Definition new_targets (self : t) : result (list Q) :=
  if nout self <? 0 then Raise ValueError
  else Return (replicate (Z.to_nat (nout self)) 0%Q).

(** Lines 122 and 155, [targets[:] = target]: the target is broadcast to
    the vector's length and each value is converted to the vector's type,
    which line 117 took from [out_dtype]. *)
Definition assign_targets (self : t) (targets : list Q) (tg : target)
    : result (list Q) :=
  if (length tg =? length targets)%nat
  then Return (Dtype.cast (out_dtype self) <$> tg)
  else match tg with
       | [v] => Return (replicate (length targets)
                          (Dtype.cast (out_dtype self) v))
       | _ => Raise ValueError
       end.

(** The local variables of [__iter__]: the iterator over the source, the
    accumulator (allocated when [collision_check] is set), the canvas, the
    targets, the trial counter, and the warnings written to stderr (each
    recorded by the trial count it reports). *)
Record Frame : Type := MkFrame {
  collider : array2 Z;
  data : array2 pixel;
  targets : list Q;
  ntrials : Z;
  stderr : list Z }.

Inductive verdict : Type := Rejected | Accepted.

(** Lines 128-157, one pass of the inner loop of Mode B, the proposal being
    the value [gen.next()] returned at line 131. *)
Definition trial (self : t) (fr : Frame) (p : proposal)
    : result (verdict * t * Frame) :=
  let stderr' :=
    if (n_successes self =? 0) && negb (ntrials fr =? 0)
       && (ntrials fr mod 1000 =? 0)
    then stderr fr ++ [ntrials fr] else stderr fr in
  let ntrials' := ntrials fr + 1 in
  let '(desc, tg) := p in
  let collider0 := fill (collider fr) 0 in
  collider' ← accumulate self collider0 desc;
  if has_collision collider' then
    Return (Rejected, set_n_rejections self (n_rejections self + 1),
            MkFrame collider' (data fr) (targets fr) ntrials' stderr')
  else
    data' ← paint (data fr) desc;
    targets' ← assign_targets self (targets fr) tg;
    Return (Accepted, set_n_successes self (n_successes self + 1),
            MkFrame collider' data' targets' ntrials' stderr').

(** An array of the canvas's shape. *)
Definition canvas_shaped {A} (self : t) (m : array2 A) : Prop :=
  rect m /\ shape m = (Z.to_nat (h self), Z.to_nat (w self)).

(** A placement as the sprite source contract gives it: a well-formed
    sprite whose top-left corner and whose patch lie on the canvas. *)
Definition placement_ok (self : t) (pl : (Z * Z) * Sprite.t) : Prop :=
  Sprite.wf pl.2 /\
  0 <= pl.1.1 < w self /\ pl.1.1 + Sprite.w pl.2 <= w self /\
  0 <= pl.1.2 < h self /\ pl.1.2 + Sprite.h pl.2 <= h self.

(** A proposal the source contract allows: every placement is, and the
    target has the length of the target vector (or broadcasts to it). *)
Definition proposal_ok (self : t) (fr : Frame) (p : proposal) : Prop :=
  Forall (placement_ok self) p.1 /\
  (length p.2 = length (targets fr) \/ length p.2 = 1%nat).

(** The accumulator and the canvas have the canvas's shape, as
    [iter_start] and [new_canvas] make them. *)
Definition frame_ok (self : t) (fr : Frame) : Prop :=
  canvas_shaped self (collider fr) /\ canvas_shaped self (data fr).

(** Lines 127-157: trials until one is accepted. The counters live on the
    instance, which outlives an exception, so the instance is returned in
    every case. *)
Fixpoint mode_b (self : t) (fr : Frame) (pending : list proposal)
    : t * result (Frame * list proposal) :=
  match pending with
  | [] => (self, Raise StopIteration)
  | p :: rest =>
      match trial self fr p with
      | Raise e => (self, Raise e)
      | Return (Rejected, self', fr') => mode_b self' fr' rest
      | Return (Accepted, self', fr') => (self', Return (fr', rest))
      end
  end.

(** Lines 119-123, Mode A. *)
Definition mode_a (self : t) (data : array2 pixel) (targets : list Q)
    (pending : list proposal)
    : t * result (array2 pixel * list Q * list proposal) :=
  match pending with
  | [] => (self, Raise StopIteration)
  | (desc, tg) :: rest =>
      match (data' ← paint data desc;
             targets' ← assign_targets self targets tg;
             Return (data', targets')) with
      | Raise e => (self, Raise e)
      | Return (data', targets') =>
          (set_n_successes self (n_successes self + 1),
           Return (data', targets', rest))
      end
  end.

(** The state the generator object keeps between two yields. *)
Record IterState : Type := MkIter {
  it_gen : list proposal;
  it_collider : option (array2 Z);
  it_stderr : list Z }.

(** Lines 106-109, run when the generator is first advanced. *)
Definition iter_start (self : t) : result IterState :=
  if collision_check self then
    collider ← full (h self) (w self) 0;
    Return (MkIter (Source.pending (gen self)) (Some collider) [])
  else Return (MkIter (Source.pending (gen self)) None []).

Definition sample : Type := list pixel * list Q.

(** Lines 112-115: the canvas of the next sample. *)
Definition new_canvas (self : t) : t * result (array2 pixel) :=
  if enable_perlin self then
    match perlin_gen self with
    | Some p =>
        let '(field, p') := get_background_noise p in
        (set_perlin_gen self (Some p'), Return field)
    | None => (self, Raise AttributeError)
    end
  else (self, full (h self) (w self) (0%Q : pixel)).

(** Lines 111-158: the generator advanced from the top of the outer loop to
    its [yield]. *)
Definition next (self : t) (it : IterState) : t * result (sample * IterState) :=
  match new_canvas self with
  | (self1, Raise e) => (self1, Raise e)
  | (self1, Return data0) =>
      match new_targets self1 with
      | Raise e => (self1, Raise e)
      | Return targets0 =>
          if negb (collision_check self1) then
            match mode_a self1 data0 targets0 (it_gen it) with
            | (self2, Raise e) => (self2, Raise e)
            | (self2, Return (data', targets', rest)) =>
                (self2,
                 flat ← reshape1 data' (nin self2);
                 Return ((flat, targets'),
                         MkIter rest (it_collider it) (it_stderr it)))
            end
          else
            match it_collider it with
            | None => (self1, Raise (NameError "collider"))
            | Some collider0 =>
                match mode_b self1
                        (MkFrame collider0 data0 targets0 0 (it_stderr it))
                        (it_gen it) with
                | (self2, Raise e) => (self2, Raise e)
                | (self2, Return (fr, rest)) =>
                    (self2,
                     flat ← reshape1 (data fr) (nin self2);
                     Return ((flat, targets fr),
                             MkIter rest (Some (collider fr)) (stderr fr)))
                end
            end
      end
  end.
End WithPerlin.
End SpritePlacer.

(** ** corruptor.py *)

(** A numpy array of any rank: its shape and its cells in row-major order. *)
Record ndarray (A : Type) : Type := NdArray { nd_shape : list nat; nd_data : list A }.
Arguments NdArray {A} nd_shape nd_data.
Arguments nd_shape {A} _.
Arguments nd_data {A} _.

Definition nd_size (shape : list nat) : nat := foldr Nat.mul 1%nat shape.

Definition nd_wf {A} (a : ndarray A) : Prop :=
  length (nd_data a) = nd_size (nd_shape a).

(** An elementwise binary operator on two arrays of one shape. (Operands of
    different shapes would be broadcast or refused; the corruptors only
    combine an input with noise requested at the input's own shape.) *)
Definition elementwise {A B C} (f : A -> B -> C) (a : ndarray A) (b : ndarray B)
    : result (ndarray C) :=
  if decide (nd_shape a = nd_shape b)
  then Return (NdArray (nd_shape b) (zip_with f (nd_data a) (nd_data b)))
  else Raise ValueError.

(** Python's [%] on reals, for a positive modulus. *)
Definition py_mod (x m : Q) : Q := (x - m * inject_Z (Qfloor (x / m)))%Q.

(** [numpy.random.RandomState] is a library class: its constructor and the
    three sampling methods corruptor.py calls are taken as an interface, each
    method returning its draw and the generator's next state. *)
Class NumpyRandom : Type := {
  RandomState : Type;
  RandomState_new : Z -> result RandomState;
  randint : RandomState -> Z -> result (Z * RandomState);
  binomial : RandomState -> list nat -> Z -> Q -> result (ndarray Z * RandomState);
  normal : RandomState -> list nat -> Q -> Q -> result (ndarray Q * RandomState) }.

(** What numpy documents of these methods: a draw has the requested shape;
    a binomial draw with [n] trials lies in [0, n], is [n] when [p = 1] and
    [0] when [p = 0], and is produced for every [p] in [0, 1]. *)
Record NumpyRandomContract `{NumpyRandom} : Prop := {
  binomial_shape : forall s size n p d s',
    binomial s size n p = Return (d, s') ->
    nd_shape d = size /\ nd_wf d;
  binomial_range : forall s size n p d s',
    binomial s size n p = Return (d, s') ->
    Forall (fun k => 0 <= k <= n) (nd_data d);
  binomial_certain : forall s size n p d s',
    (p == 1)%Q -> binomial s size n p = Return (d, s') ->
    Forall (fun k => k = n) (nd_data d);
  binomial_impossible : forall s size n p d s',
    (p == 0)%Q -> binomial s size n p = Return (d, s') ->
    Forall (fun k => k = 0) (nd_data d);
  binomial_total : forall s size n p,
    0 <= n -> (0 <= p)%Q -> (p <= 1)%Q ->
    exists d s', binomial s size n p = Return (d, s');
  normal_shape : forall s size loc scale d s',
    normal s size loc scale = Return (d, s') ->
    nd_shape d = size /\ nd_wf d }.

Module Corruptors.

(** The classes of the module, and their bases as the [class] statements
    give them. *)
Inductive pyclass : Type :=
  | object
  | Corruptor
  | DummyCorruptor
  | BinomialCorruptor
  | GaussianCorruptor.

#[global] Instance pyclass_eq_dec : EqDecision pyclass.
Proof. solve_decision. Defined.

Definition mro (c : pyclass) : list pyclass :=
  match c with
  | object => [object]
  | Corruptor => [Corruptor; object]
  | DummyCorruptor => [DummyCorruptor; Corruptor; object]
  | BinomialCorruptor => [BinomialCorruptor; Corruptor; object]
  | GaussianCorruptor => [GaussianCorruptor; Corruptor; object]
  end.

Section WithRandom.
Context `{NumpyRandom}.

(** An instance: its class and the two attributes [__init__] sets. *)
Record t : Type := Make {
  cls : pyclass;
  s_rng : RandomState;
  corruption_level : Q }.

(** [Corruptor.__init__] (lines 11-28), inherited by every variant;
    [GaussianCorruptor.__init__] (lines 96-97) passes [stdev] on as the
    corruption level. *)
Definition __init__ (cls : pyclass) (corruption_level : Q) (rng : Z) : result t :=
  rng0 ← RandomState_new rng;
  draw ← randint rng0 (2 ^ 30);
  s ← RandomState_new (draw.1);
  Return (Make cls s corruption_level).

Definition set_s_rng (self : t) (s : RandomState) : t :=
  Make (cls self) s (corruption_level self).

(** [BinomialCorruptor._corrupt] (lines 62-67). *)
Definition BinomialCorruptor_corrupt (self : t) (x : ndarray Q)
    : result (ndarray Q * t) :=
  draw ← binomial (s_rng self) (nd_shape x) 1 (1 - corruption_level self)%Q;
  out ← elementwise (fun k v => (inject_Z k * v)%Q) (draw.1) x;
  Return (out, set_s_rng self (draw.2)).

(** [GaussianCorruptor._corrupt] (lines 99-107). *)
Definition GaussianCorruptor_corrupt (self : t) (x : ndarray Q)
    : result (ndarray Q * t) :=
  noise ← normal (s_rng self) (nd_shape x) 0%Q (corruption_level self);
  rval ← elementwise (fun n v => py_mod (Qabs (n + v)) 255%Q) (noise.1) x;
  Return (rval, set_s_rng self (noise.2)).

(** [__call__], dispatched on the class of the instance. *)
Definition __call__ (self : t) (inputs : ndarray Q) : result (ndarray Q * t) :=
  match cls self with
  | DummyCorruptor => Return (inputs, self)
  | BinomialCorruptor => BinomialCorruptor_corrupt self inputs
  | GaussianCorruptor => GaussianCorruptor_corrupt self inputs
  | Corruptor | object => Raise NotImplementedError
  end.

(** A sequence of calls on one instance. *)
Fixpoint calls (self : t) (inputs : list (ndarray Q))
    : result (list (ndarray Q) * t) :=
  match inputs with
  | [] => Return ([], self)
  | x :: rest =>
      r ← __call__ self x;
      rs ← calls (r.2) rest;
      Return (r.1 :: rs.1, rs.2)
  end.
End WithRandom.

(** What a module-level name can be bound to. *)
Inductive pyobj : Type :=
  | PyClass (c : pyclass)
  | PyModule (name : string)
  | PyFunction (name : string)
  | PyStr (s : string)
  | PyNone.

(** [issubclass(obj, c)]: defined on classes only. *)
Definition issubclass (obj : pyobj) (c : pyclass) : result bool :=
  match obj with
  | PyClass k => Return (bool_decide (c ∈ mro k))
  | _ => Raise TypeError
  end.

(** [get] (lines 132-138), [globals()] being the module's dictionary. *)
Definition get (globals : gmap string pyobj) (str : string) : result pyobj :=
  match globals !! str with
  | None => Raise (KeyError str)
  | Some obj =>
      sub ← issubclass obj Corruptor;
      if sub : bool then Return obj else Raise (NameError str)
  end.

(** The dictionary of corruptor.py once the module is loaded: the names the
    interpreter binds in every module, then the module's own statements. *)
Definition module_globals : gmap string pyobj :=
  list_to_map [
    ("__name__", PyStr "arcade_universe.corruptor");
    ("__doc__", PyStr "Based on the pylearn2's corruptor class.");
    ("__file__", PyStr "arcade_universe/corruptor.py");
    ("__package__", PyNone);
    ("__builtins__", PyModule "__builtin__");
    ("np", PyModule "numpy");
    ("Corruptor", PyClass Corruptor);
    ("DummyCorruptor", PyClass DummyCorruptor);
    ("BinomialCorruptor", PyClass BinomialCorruptor);
    ("GaussianCorruptor", PyClass GaussianCorruptor);
    ("get", PyFunction "get") ].

End Corruptors.

(** ** Concrete inputs *)

Module Examples.

(** A background supplier whose state counts the requests it has answered,
    and whose next field is filled with that count. *)
Definition counting_noise : PerlinNoiseGenerator := {|
  perlin_state := Z * Z * Z;
  perlin_new := fun w h _ => (w, h, 0);
  get_background_noise := fun st =>
    let '(w, h, n) := st in
    (Array2 (Z.to_nat w)
       (replicate (Z.to_nat h) (replicate (Z.to_nat w) (inject_Z n))),
     (w, h, n + 1)) |}.


Definition constant {A} (h w : nat) (v : A) : array2 A :=
  Array2 w (replicate h (replicate w v)).

(** A 2x2 sprite with a margin of one cell on every side. *)
Definition block : Sprite.t :=
  Sprite.Make 2 2 1 1 4 4 (constant 2 2 255%Q) (constant 4 4 1).

(** A 2x2 sprite with a margin of one row and three columns. *)
Definition wide : Sprite.t :=
  Sprite.Make 2 2 1 3 4 8 (constant 2 2 255%Q) (constant 4 8 1).

(** A 1x1 sprite without margin. *)
Definition dot : Sprite.t :=
  Sprite.Make 1 1 0 0 1 1 (constant 1 1 255%Q) (constant 1 1 1).

(** Two blocks whose margined footprints overlap, and two that lie apart. *)
Definition overlapping : proposal := ([((1, 3), block); ((2, 3), block)], [0%Q]).
Definition disjoint : proposal := ([((1, 1), block); ((5, 5), block)], [1%Q]).

(** Two dots on the same cell of the last column. *)
Definition stacked : proposal := ([((7, 3), dot); ((7, 3), dot)], [0%Q]).

(** An 8x8 source that proposes [overlapping], then [disjoint]. *)
Definition source88 (out_format : string) : Source.t :=
  Source.Make 8 8 1 None out_format (Dtype.UInt 8) [overlapping; disjoint].

Definition placer88 (P : PerlinNoiseGenerator) (enable_perlin : bool) : SpritePlacer.t :=
  SpritePlacer.Make (source88 "array") true enable_perlin 8 8 64 "array" (Dtype.UInt 8)
    1 None 0 0 (if enable_perlin then Some (perlin_new 8 8 32) else None).

Definition frame88 (P : PerlinNoiseGenerator) : SpritePlacer.Frame :=
  SpritePlacer.MkFrame (constant 8 8 0) (constant 8 8 0%Q) [0%Q] 0 [].

(** The generator's state once started on [placer88]. *)
Definition iter88 (P : PerlinNoiseGenerator) : SpritePlacer.IterState :=
  SpritePlacer.MkIter [overlapping; disjoint] (Some (constant 8 8 0)) [].

(** An instance on which three samples were produced and one trial rejected. *)
Definition placer_3_1 (P : PerlinNoiseGenerator) : SpritePlacer.t :=
  SpritePlacer.Make (source88 "array") true false 8 8 64 "array" (Dtype.UInt 8)
    1 None 3 1 None.

End Examples.

(** A small linear congruential generator behind the [NumpyRandom]
    interface, to run the corruptors on concrete inputs. *)
Module Lcg.

Definition modulus : Z := 2 ^ 31.

Definition step (s : Z) : Z := (1103515245 * s + 12345) mod modulus.

(** The state read as a number of [0, 1). *)
Definition uniform (s : Z) : Q := Qmake s (Z.to_pos modulus).

Definition Qltb (x y : Q) : bool := Qnum x * QDen y <? Qnum y * QDen x.

(** The successes among [n] trials of probability [p]. *)
Fixpoint successes (n : nat) (s : Z) (p : Q) : Z * Z :=
  match n with
  | O => (0, s)
  | S n' =>
      let s1 := step s in
      let r := successes n' s1 p in
      ((if Qltb (uniform s1) p then 1 else 0) + r.1, r.2)
  end.

Fixpoint binomials (cells : nat) (n : nat) (s : Z) (p : Q) : list Z * Z :=
  match cells with
  | O => ([], s)
  | S cells' =>
      let k := successes n s p in
      let r := binomials cells' n (k.2) p in
      (k.1 :: r.1, r.2)
  end.

Fixpoint normals (cells : nat) (s : Z) (loc scale : Q) : list Q * Z :=
  match cells with
  | O => ([], s)
  | S cells' =>
      let s1 := step s in
      let s2 := step s1 in
      let r := normals cells' s2 loc scale in
      ((loc + scale * (uniform s1 + uniform s2 - 1))%Q :: r.1, r.2)
  end.

Definition random : NumpyRandom := {|
  RandomState := Z;
  RandomState_new := fun seed =>
    if (0 <=? seed) && (seed <? 2 ^ 32) then Return (seed mod modulus)
    else Raise ValueError;
  randint := fun s high =>
    if high <=? 0 then Raise ValueError
    else Return (step s mod high, step s);
  binomial := fun s size n p =>
    if (n <? 0) || Qltb p 0 || Qltb 1 p then Raise ValueError
    else let r := binomials (nd_size size) (Z.to_nat n) s p in
         Return (NdArray size (r.1), r.2);
  normal := fun s size loc scale =>
    if Qltb scale 0 then Raise ValueError
    else let r := normals (nd_size size) s loc scale in
         Return (NdArray size (r.1), r.2) |}.

End Lcg.

Module CorruptorExamples.

(** A 2x2 input. *)
Definition x22 : ndarray Q := NdArray [2; 2]%nat [10; 20; 30; 40]%Q.

(** Another input of the same shape. *)
Definition y22 : ndarray Q := NdArray [2; 2]%nat [1; 2; 3; 4]%Q.

(** Calls on two instances, taken in turn and out of turn; both are given
    [x22] and then [y22]. *)
Definition interleaved : list (bool * ndarray Q) :=
  [(true, x22); (false, x22); (false, y22); (true, y22)].

(** The generator a corruptor built with the default seed 2001 holds. *)
Definition rng2001 : @RandomState Lcg.random :=
  Eval vm_compute in Lcg.step 2001 mod 2 ^ 30.

Definition seeded (cls : Corruptors.pyclass) (level : Q) : @Corruptors.t Lcg.random :=
  Corruptors.Make cls rng2001 level.

End CorruptorExamples.

(** ** What the accumulator and the canvas hold, cell by cell *)

Module Scene.
Section WithPerlin.
Context `{PerlinNoiseGenerator}.
Import SpritePlacer.

(** What one placement adds to cell [(i, j)] of the accumulator of a canvas
    of [rows] rows and [cols] columns: the value of its mask there on the
    rows above the last one and the columns left of the last one, and
    nothing on the last row and on the last column, which lines 138-143
    never reach. *)
Definition contribution (rows cols : Z) (pl : (Z * Z) * Sprite.t) (i j : nat) : Z :=
  if (Z.of_nat i <? rows - 1) && (Z.of_nat j <? cols - 1)
  then mask_at pl.2 pl.1.1 pl.1.2 (Z.of_nat i) (Z.of_nat j)
  else 0.

(** What a description adds to cell [(i, j)] of the accumulator. *)
Fixpoint coverage (rows cols : Z) (desc : description) (i j : nat) : Z :=
  match desc with
  | [] => 0
  | pl :: rest => contribution rows cols pl i j + coverage rows cols rest i j
  end.

(** The sum on cell [(i, j)] of the masks of a description, each laid around
    its sprite: what the sprites themselves cover, whatever the accumulator
    records of it. *)
Fixpoint mask_sum (desc : description) (i j : nat) : Z :=
  match desc with
  | [] => 0
  | pl :: rest =>
      mask_at pl.2 pl.1.1 pl.1.2 (Z.of_nat i) (Z.of_nat j) + mask_sum rest i j
  end.

(** The values of a cell that line 149 rejects. *)
Definition overlap_value (v : Z) : bool := (255 <? v) || (v =? 2) || (v =? 3).

(** The masks of the description sum to a rejected value on some cell of the
    canvas, the last row and the last column included. *)
Definition masks_overlap (self : t) (desc : description) : Prop :=
  exists i j : nat,
    Z.of_nat i < h self /\ Z.of_nat j < w self /\
    overlap_value (mask_sum desc i j) = true.

(** The collision the test of line 149 can see: the masks sum to a rejected
    value on some cell above the last row and left of the last column. An
    overlap that lies in the last row or in the last column only is not
    among them. *)
Definition collision_detected (self : t) (desc : description) : Prop :=
  exists i j : nat,
    Z.of_nat i < h self - 1 /\ Z.of_nat j < w self - 1 /\
    overlap_value (mask_sum desc i j) = true.

(** The patch cell a placement paints on canvas cell [(i, j)], if any. *)
Definition patch_at (pl : (Z * Z) * Sprite.t) (i j : nat) : option pixel :=
  let x := pl.1.1 in
  let y := pl.1.2 in
  if (y <=? Z.of_nat i) && (Z.of_nat i <? y + Sprite.h pl.2)
     && (x <=? Z.of_nat j) && (Z.of_nat j <? x + Sprite.w pl.2)
  then get (Sprite.patch pl.2) (Z.to_nat (Z.of_nat i - y)) (Z.to_nat (Z.of_nat j - x))
  else None.

(** The value of canvas cell [(i, j)] once a description is painted over the
    value [v], the placements taken in order. *)
Fixpoint painted (desc : description) (i j : nat) (v : pixel) : pixel :=
  match desc with
  | [] => v
  | pl :: rest => painted rest i j (default v (patch_at pl i j))
  end.

(** A proposal the source contract allows, for an instance whose target
    vector has [nout] cells. *)
Definition contract_ok (self : t) (q : proposal) : Prop :=
  Forall (placement_ok self) q.1 /\
  (length q.2 = Z.to_nat (nout self) \/ length q.2 = 1%nat).

End WithPerlin.
End Scene.

Module MoreExamples.
Import Examples.

(** A 2x2 sprite like [block], with a patch of 7s. *)
Definition dim : Sprite.t :=
  Sprite.Make 2 2 1 1 4 4 (constant 2 2 7%Q) (constant 4 4 1).

(** Two sprites whose patches share the cells of column 2, rows 3 and 4. *)
Definition layered : description := [((1, 3), block); ((2, 3), dim)].

(** An 8x8 placer without the collision check, and its started generator. *)
Definition placer88a (P : PerlinNoiseGenerator) : SpritePlacer.t :=
  SpritePlacer.Make (source88 "array") false false 8 8 64 "array" (Dtype.UInt 8)
    1 None 0 0 None.

Definition iter88a (P : PerlinNoiseGenerator) : SpritePlacer.IterState :=
  SpritePlacer.MkIter [overlapping; disjoint] None [].

(** The locals of a sample on which 999 trials were already rejected. *)
Definition frame999 (P : PerlinNoiseGenerator) : SpritePlacer.Frame :=
  SpritePlacer.MkFrame (constant 8 8 0) (constant 8 8 0%Q) [0%Q] 999 [].

End MoreExamples.
(** ** The generators as objects

    A [numpy.random.RandomState] is an object: an instance refers to its
    generator, a draw changes the generator in place, and two instances that
    referred to one generator would take their noise from one stream. The
    store keeps the generators by address, so that instances built one after
    the other, and called in any order, are told apart from instances that
    share a generator. *)

Module Heap.

(** The generators alive, by address. *)
Abbreviation store := (gmap positive RandomState).

Section WithRandom.
Context `{NumpyRandom}.
Import Corruptors.

(** An instance in the store: [s_rng] is the address of its generator. *)
Record obj : Type := Obj {
  o_cls : pyclass;
  o_s_rng : positive;
  o_corruption_level : Q }.

(** [np.random.RandomState(seed)]: a new object, at an address not in use. *)
Definition new_RandomState (st : store) (seed : Z) : result (positive * store) :=
  s ← RandomState_new seed;
  let l := fresh (dom st) in
  Return (l, <[l := s]> st).

(** A method of the generator at address [l]: the generator keeps the state
    the method leaves. *)
Definition in_place {A} (st : store) (l : positive)
    (method : RandomState -> result (A * RandomState)) : result (A * store) :=
  match st !! l with
  | None => Raise AttributeError
  | Some s =>
      r ← method s;
      Return (r.1, <[l := r.2]> st)
  end.

(** [Corruptor.__init__] (lines 25-28): both generators are new objects, and
    the instance keeps the second. *)
Definition init (st : store) (cls : pyclass) (corruption_level : Q) (rng : Z)
    : result (obj * store) :=
  rng0 ← new_RandomState st rng;
  draw ← in_place (rng0.2) (rng0.1) (fun s => randint s (2 ^ 30));
  s ← new_RandomState (draw.2) (draw.1);
  Return (Obj cls (s.1) corruption_level, s.2).

(** [o(inputs)]: the method of the instance's class, run on the generator
    the instance refers to. *)
Definition call (st : store) (o : obj) (inputs : ndarray Q)
    : result (ndarray Q * store) :=
  in_place st (o_s_rng o)
    (fun s =>
       r ← __call__ (Make (o_cls o) s (o_corruption_level o)) inputs;
       Return (r.1, s_rng (r.2))).

(** Calls on two instances, in any order: a step names the instance called
    ([true] for the first) and gives its input; the output is recorded under
    the same name. *)
Fixpoint run (st : store) (o1 o2 : obj) (steps : list (bool * ndarray Q))
    : result (list (bool * ndarray Q) * store) :=
  match steps with
  | [] => Return ([], st)
  | (first, x) :: rest =>
      r ← call st (if first then o1 else o2) x;
      rs ← run (r.2) o1 o2 rest;
      Return ((first, r.1) :: rs.1, rs.2)
  end.

(** The arrays given to, or returned by, one of the two instances. *)
Fixpoint of_instance (first : bool) (steps : list (bool * ndarray Q))
    : list (ndarray Q) :=
  match steps with
  | [] => []
  | (who, x) :: rest =>
      if Bool.eqb who first then x :: of_instance first rest
      else of_instance first rest
  end.

End WithRandom.
End Heap.

Module HeapExamples.
Import Corruptors Heap CorruptorExamples.

(** Two binomial corruptors of level 1/2, as the constructor places them in
    an empty store: the generators seeded with 2001 sit at addresses 1 and
    3, the generators of the instances at addresses 2 and 4. *)
Definition first : obj := Obj BinomialCorruptor 2 (1 # 2).
Definition second : obj := Obj BinomialCorruptor 4 (1 # 2).

Definition store1 : gmap positive Z :=
  list_to_map [(1%positive, 520827446); (2%positive, 520827446)].
Definition store2 : gmap positive Z :=
  list_to_map [(1%positive, 520827446); (2%positive, 520827446);
               (3%positive, 520827446); (4%positive, 520827446)].
Definition store3 : gmap positive Z :=
  list_to_map [(1%positive, 520827446); (2%positive, 283791886);
               (3%positive, 520827446); (4%positive, 283791886)].

Definition masked : list (bool * ndarray Q) :=
  [(true, NdArray [2; 2]%nat [10; 0; 0; 0]%Q);
   (false, NdArray [2; 2]%nat [10; 0; 0; 0]%Q);
   (false, NdArray [2; 2]%nat [1; 0; 3; 4]%Q);
   (true, NdArray [2; 2]%nat [1; 0; 3; 4]%Q)].
End HeapExamples.

(** * Facts about slices and slice updates *)

Module NumpyFacts.
Import Numpy.

Lemma slice_index_le n i : (slice_index n i <= n)%nat.
Proof. unfold slice_index. destruct (i <? 0) eqn:E; lia. Qed.

Lemma slice_index_nonneg n i : 0 <= i -> slice_index n i = Z.to_nat (Z.min i (Z.of_nat n)).
Proof. intros Hi. unfold slice_index. destruct (Z.ltb_spec i 0); [lia|reflexivity]. Qed.

Lemma slice1_length {B} n lo hi (l : list B) :
  length l = n -> length (slice1 n lo hi l) = (slice_index n hi - slice_index n lo)%nat.
Proof.
  intros Hl. unfold slice1. rewrite length_take, length_drop.
  pose proof (slice_index_le n hi). lia.
Qed.

Lemma slice1_lookup {B} n lo hi (l : list B) k :
  slice1 n lo hi l !! k =
    if decide (k < slice_index n hi - slice_index n lo)%nat
    then l !! (slice_index n lo + k)%nat else None.
Proof.
  unfold slice1. case_decide.
  - rewrite lookup_take_lt by done. apply lookup_drop.
  - apply lookup_take_ge. lia.
Qed.

Lemma slice1_full {B} n (l : list B) : length l = n -> slice1 n 0 (Z.of_nat n) l = l.
Proof.
  intros Hl. unfold slice1.
  rewrite !slice_index_nonneg by lia.
  replace (Z.to_nat (Z.min 0 (Z.of_nat n))) with 0%nat by lia.
  replace (Z.to_nat (Z.min (Z.of_nat n) (Z.of_nat n))) with n by lia.
  rewrite drop_0, Nat.sub_0_r. apply firstn_all2. lia.
Qed.

Section Facts.
Context {A : Type}.
Implicit Types m : array2 A.

Lemma slice2_nrows m a b c d :
  nrows (slice2 m a b c d) = (slice_index (nrows m) b - slice_index (nrows m) a)%nat.
Proof. unfold nrows, slice2; simpl. rewrite length_fmap. by apply slice1_length. Qed.

Lemma slice2_rect m a b c d : rect m -> rect (slice2 m a b c d).
Proof.
  unfold rect, slice2; simpl. intros Hr.
  apply Forall_fmap. unfold slice1 at 2.
  apply Forall_take, Forall_drop.
  eapply Forall_impl; [exact Hr|]. simpl. intros r Hlen. by apply slice1_length.
Qed.

Lemma slice2_get m a b c d i j :
  get (slice2 m a b c d) i j =
    if decide (i < slice_index (nrows m) b - slice_index (nrows m) a)%nat
    then if decide (j < slice_index (ncols m) d - slice_index (ncols m) c)%nat
         then get m (slice_index (nrows m) a + i) (slice_index (ncols m) c + j)
         else None
    else None.
Proof.
  unfold get, slice2; simpl. rewrite list_lookup_fmap, slice1_lookup.
  case_decide; [|done].
  destruct (rows m !! _) as [r|]; simpl; [|by case_decide].
  apply slice1_lookup.
Qed.

Lemma slice2_full m :
  rect m -> slice2 m 0 (Z.of_nat (nrows m)) 0 (Z.of_nat (ncols m)) = m.
Proof.
  intros Hr. destruct m as [nc rs]. unfold slice2, nrows in *; simpl in *.
  f_equal.
  - rewrite !slice_index_nonneg by lia. lia.
  - rewrite slice1_full by done. unfold rect in Hr; simpl in Hr.
    rewrite <- (list_fmap_id rs) at 2. apply Forall_fmap_ext.
    eapply Forall_impl; [exact Hr|]. intros r Hlen. by apply slice1_full.
Qed.
End Facts.

Section Update.
Context {A B : Type} (f : A -> B -> A).

Lemma update_slice_shape m a b c d (v : array2 B) m' :
  update_slice f m a b c d v = Return m' ->
  shape m' = shape m /\ (rect m -> rect m').
Proof.
  unfold update_slice. destruct (_ && _); [|done]. intros [= <-].
  unfold shape, nrows, rect; simpl. rewrite length_imap. split; [done|].
  intros Hr. rewrite Forall_lookup in Hr |- *. intros i r.
  rewrite list_lookup_imap. destruct (rows m !! i) as [r0|] eqn:E; simpl; [|done].
  intros [= <-]. specialize (Hr _ _ E). case_match; [|done]. by rewrite length_imap.
Qed.

Lemma update_slice_get m a b c d (v : array2 B) m' i j :
  update_slice f m a b c d v = Return m' ->
  get m' i j =
    (fun x =>
       if in_range (slice_index (nrows m) a) (slice_index (nrows m) b) i
          && in_range (slice_index (ncols m) c) (slice_index (ncols m) d) j
       then match get v (bidx (nrows v) (i - slice_index (nrows m) a))
                        (bidx (ncols v) (j - slice_index (ncols m) c)) with
            | Some y => f x y
            | None => x
            end
       else x) <$> get m i j.
Proof.
  unfold update_slice. destruct (_ && _); [|done]. intros [= <-].
  unfold get; simpl. rewrite list_lookup_imap.
  destruct (rows m !! i) as [r|]; simpl; [|done].
  destruct (in_range _ _ i); simpl.
  - rewrite list_lookup_imap. by destruct (r !! j).
  - by destruct (r !! j).
Qed.
End Update.
End NumpyFacts.

(** * The accumulation step *)

Section Footprint.
Context `{PerlinNoiseGenerator}.
Import SpritePlacer NumpyFacts.

Lemma accumulate_sprite_clip self col x y sp :
  Sprite.wf sp ->
  accumulate_sprite self col x y sp
  = add_footprint_within (h self - 1) (w self - 1) col x y sp.
Proof.
  intros Hw. destruct Hw as [Hh Hw0 Hmh Hmw Emh Emw Smask Rmask _ _].
  unfold accumulate_sprite, add_footprint_within.
  set (a := y - Sprite.marginh sp). set (b := y + Sprite.h sp + Sprite.marginh sp).
  set (c := x - Sprite.marginw sp). set (d := x + Sprite.w sp + Sprite.marginw sp).
  assert (Eb : Sprite.mh sp = b - a) by (subst a b; lia).
  assert (Ed : Sprite.mw sp = d - c) by (subst c d; lia).
  destruct (Z.ltb_spec a 0) as [Ha|Ha]; destruct (Z.geb_spec b (h self)) as [Hb|Hb];
    destruct (Z.ltb_spec c 0) as [Hc|Hc]; destruct (Z.geb_spec d (w self)) as [Hd|Hd];
    cbn [orb b2z]; rewrite ?Eb, ?Ed;
    try (f_equal; [f_equal; lia ..]).
  (* the footprint is inside: the whole mask *)
  replace (Z.max 0 a) with a by lia. replace (Z.min b (h self - 1)) with b by lia.
  replace (Z.max 0 c) with c by lia. replace (Z.min d (w self - 1)) with d by lia.
  f_equal. replace (a - a) with 0 by lia. replace (c - c) with 0 by lia.
  injection Smask as Hr Hc'.
  rewrite <- Eb, <- Ed.
  replace (Sprite.mh sp) with (Z.of_nat (nrows (Sprite.mask sp))) by lia.
  replace (Sprite.mw sp) with (Z.of_nat (ncols (Sprite.mask sp))) by lia.
  symmetry. by apply slice2_full.
Qed.

Lemma get_inside {A} (m : array2 A) i j :
  rect m -> (i < nrows m)%nat -> (j < ncols m)%nat -> is_Some (get m i j).
Proof.
  intros Hr Hi Hj. unfold get.
  destruct (lookup_lt_is_Some_2 (rows m) i Hi) as [r Er]. rewrite Er; simpl.
  apply lookup_lt_is_Some_2.
  unfold rect in Hr. rewrite Forall_lookup in Hr. rewrite (Hr _ _ Er). done.
Qed.

Lemma get_outside {A} (m : array2 A) i j :
  rect m -> (nrows m <= i)%nat \/ (ncols m <= j)%nat -> get m i j = None.
Proof.
  intros Hr Hij. unfold get.
  destruct (rows m !! i) as [r|] eqn:Er; simpl; [|done].
  apply lookup_ge_None.
  unfold rect in Hr. rewrite Forall_lookup in Hr. rewrite (Hr _ _ Er).
  destruct Hij as [Hi|Hj]; [|done].
  apply lookup_lt_Some in Er. unfold nrows in Hi. lia.
Qed.

Lemma bidx_inside n k : (k < n)%nat -> bidx n k = k.
Proof. unfold bidx. destruct (Nat.eqb_spec n 1); lia. Qed.

(** One axis of a clipped footprint: no bound of the two slices is negative
    or beyond its axis. *)
Lemma axis_clip (n mn : nat) (lim pos size margin : Z) :
  0 <= size -> 0 <= margin -> 0 <= pos <= lim -> lim <= Z.of_nat n ->
  mn = Z.to_nat (size + 2 * margin) ->
  let a := pos - margin in
  let b := pos + size + margin in
  let a' := Z.max 0 a in
  let b' := Z.min b lim in
  slice_index n a' = Z.to_nat a' /\ slice_index n b' = Z.to_nat b' /\
  slice_index mn (a' - a) = Z.to_nat (a' - a) /\
  slice_index mn (b' - a) = Z.to_nat (b' - a) /\
  (Z.to_nat (b' - a) - Z.to_nat (a' - a) = Z.to_nat b' - Z.to_nat a')%nat.
Proof.
  intros Hs Hm Hp Hl ->. cbv zeta.
  rewrite !slice_index_nonneg by lia.
  repeat split; lia.
Qed.

(** Along one axis: the test the slice update makes on a canvas index, and
    the mask index it reads, in terms of the footprint's origin. *)
Lemma axis_index (mn : nat) (lim pos size margin : Z) (i : nat) :
  0 <= size -> 0 <= margin -> 0 <= pos <= lim ->
  mn = Z.to_nat (size + 2 * margin) ->
  let a := pos - margin in
  let b := pos + size + margin in
  let a' := Z.max 0 a in
  let b' := Z.min b lim in
  if in_range (Z.to_nat a') (Z.to_nat b') i then
    (Z.of_nat i <? lim) = true /\ (a <=? Z.of_nat i) = true /\
    (i - Z.to_nat a' < Z.to_nat b' - Z.to_nat a')%nat /\
    (Z.to_nat (a' - a) + (i - Z.to_nat a') = Z.to_nat (Z.of_nat i - a))%nat /\
    (Z.to_nat (Z.of_nat i - a) < mn)%nat
  else
    (Z.of_nat i <? lim) = false \/ (a <=? Z.of_nat i) = false \/
    (mn <= Z.to_nat (Z.of_nat i - a))%nat.
Proof.
  intros Hs Hm Hp ->. cbv zeta. unfold in_range.
  destruct (Nat.leb_spec (Z.to_nat (Z.max 0 (pos - margin))) i);
    destruct (Nat.ltb_spec i (Z.to_nat (Z.min (pos + size + margin) lim))); simpl;
    destruct (Z.ltb_spec (Z.of_nat i) lim);
    destruct (Z.leb_spec (pos - margin) (Z.of_nat i)); try lia; auto.
  all: right; right; lia.
Qed.

Lemma outside_zero (m : array2 Z) (bi bj ai aj : bool) (I J : nat) :
  rect m ->
  (bi = false \/ ai = false \/ (nrows m <= I)%nat) \/
  (bj = false \/ aj = false \/ (ncols m <= J)%nat) ->
  (if bi && bj then if ai && aj then default 0 (get m I J) else 0 else 0) = 0.
Proof.
  intros Hr Hout. destruct bi, bj, ai, aj; simpl; try done.
  rewrite get_outside; [done|done|].
  destruct Hout as [[?|[?|?]]|[?|[?|?]]]; try discriminate; auto.
Qed.

Lemma add_footprint_within_cells rl cl col x y sp :
  Sprite.wf sp -> rect col ->
  0 <= y <= rl -> 0 <= x <= cl ->
  rl <= Z.of_nat (nrows col) -> cl <= Z.of_nat (ncols col) ->
  exists col',
    add_footprint_within rl cl col x y sp = Return col' /\
    shape col' = shape col /\ rect col' /\
    forall i j : nat,
      get col' i j =
        (fun v => v + if (Z.of_nat i <? rl) && (Z.of_nat j <? cl)
                      then mask_at sp x y (Z.of_nat i) (Z.of_nat j) else 0)
        <$> get col i j.
Proof.
  intros Hw Hrect Hy Hx Hrl Hcl.
  destruct Hw as [Hh Hw0 Hmh Hmw Emh Emw Smask Rmask _ _].
  injection Smask as Snr Snc. rewrite Emh in Snr. rewrite Emw in Snc.
  destruct (axis_clip (nrows col) _ rl y _ _ Hh Hmh Hy Hrl Snr)
    as (Er0 & Er1 & Es0 & Es1 & Er).
  destruct (axis_clip (ncols col) _ cl x _ _ Hw0 Hmw Hx Hcl Snc)
    as (Ec0 & Ec1 & Et0 & Et1 & Ec).
  pose proof (fun i => axis_index _ rl y _ _ i Hh Hmh Hy Snr) as Hi.
  pose proof (fun j => axis_index _ cl x _ _ j Hw0 Hmw Hx Snc) as Hj.
  cbv zeta in Hi, Hj.
  unfold add_footprint_within, iadd_slice, mask_at.
  set (v := slice2 _ _ _ _ _).
  assert (Hnr : nrows v = (Z.to_nat (Z.min (y + Sprite.h sp + Sprite.marginh sp) rl)
                           - Z.to_nat (Z.max 0 (y - Sprite.marginh sp)))%nat)
    by (subst v; rewrite slice2_nrows, Es0, Es1; exact Er).
  assert (Hnc : ncols v = (Z.to_nat (Z.min (x + Sprite.w sp + Sprite.marginw sp) cl)
                           - Z.to_nat (Z.max 0 (x - Sprite.marginw sp)))%nat)
    by (subst v; simpl; rewrite Et0, Et1; exact Ec).
  destruct (update_slice Z.add col _ _ _ _ v) as [col'|e] eqn:E.
  2:{ exfalso. unfold update_slice in E. rewrite Er0, Er1, Ec0, Ec1, Hnr, Hnc in E.
      unfold broadcastable in E. rewrite !Nat.eqb_refl in E. simpl in E. discriminate. }
  exists col'. split; [done|].
  destruct (update_slice_shape _ _ _ _ _ _ _ _ E) as [Hs Hr]. split; [done|]. split; [auto|].
  intros i j. rewrite (update_slice_get _ _ _ _ _ _ _ _ i j E).
  rewrite Er0, Er1, Ec0, Ec1, Hnr, Hnc.
  destruct (get col i j) as [x0|]; simpl; [|done]. f_equal.
  specialize (Hi i). specialize (Hj j).
  destruct (in_range _ _ i); destruct (in_range _ _ j); simpl.
  1:{ destruct Hi as (-> & -> & Hi2 & Hi3 & Hi4). destruct Hj as (-> & -> & Hj2 & Hj3 & Hj4).
    simpl. rewrite !bidx_inside by assumption.
    subst v. rewrite slice2_get, Es0, Es1, Et0, Et1, Er, Ec.
    rewrite decide_True by assumption. rewrite decide_True by assumption.
    rewrite Hi3, Hj3.
    destruct (get_inside (Sprite.mask sp) (Z.to_nat (Z.of_nat i - (y - Sprite.marginh sp)))
                (Z.to_nat (Z.of_nat j - (x - Sprite.marginw sp)))) as [m Em];
      [done|exact Hi4|exact Hj4|]. by rewrite Em. }
  all: rewrite outside_zero; [by rewrite Z.add_0_r|done|tauto].
Qed.
End Footprint.

(** * Trials and the rejection loop *)

Section Trials.
Context `{PerlinNoiseGenerator}.
Import SpritePlacer NumpyFacts.

Lemma result_bind_Return {A B} (r : result A) (k : A -> result B) b :
  r ≫= k = Return b -> exists a, r = Return a /\ k a = Return b.
Proof. destruct r as [a|e]; [eauto|discriminate]. Qed.

(** What a trial that returns has done. *)
Lemma trial_inv self fr p v self' fr' :
  trial self fr p = Return (v, self', fr') ->
  accumulate self (fill (collider fr) 0) p.1 = Return (collider fr') /\
  ntrials fr' = ntrials fr + 1 /\
  match v with
  | Rejected =>
      has_collision (collider fr') = true /\
      self' = set_n_rejections self (n_rejections self + 1) /\
      data fr' = data fr /\ targets fr' = targets fr
  | Accepted =>
      has_collision (collider fr') = false /\
      self' = set_n_successes self (n_successes self + 1) /\
      paint (data fr) p.1 = Return (data fr') /\
      assign_targets self (targets fr) p.2 = Return (targets fr')
  end.
Proof.
  unfold trial. destruct p as [desc tg]. intros Ht.
  apply result_bind_Return in Ht as (col' & Hacc & Ht). simpl.
  destruct (has_collision col') eqn:Hc.
  - injection Ht as <- <- <-. simpl. by repeat split.
  - apply result_bind_Return in Ht as (d' & Hp & Ht).
    apply result_bind_Return in Ht as (t' & Hta & Ht).
    injection Ht as <- <- <-. simpl. by repeat split.
Qed.

(** Trials until the first accepted one: the proposals consumed are some
    rejected ones and the accepted one, each rejected one counted once, the
    canvas painted once, with the accepted description. *)
Lemma mode_b_returns self fr pending self' fr' rest :
  mode_b self fr pending = (self', Return (fr', rest)) ->
  exists rejected p,
    pending = rejected ++ p :: rest /\
    self' = set_n_successes
              (set_n_rejections self (n_rejections self + Z.of_nat (length rejected)))
              (n_successes self + 1) /\
    ntrials fr' = ntrials fr + Z.of_nat (length rejected) + 1 /\
    paint (data fr) p.1 = Return (data fr').
Proof.
  revert self fr. induction pending as [|p ps IH]; intros self fr; simpl; [discriminate|].
  destruct (trial self fr p) as [[[v self1] fr1]|e] eqn:Ht; [|discriminate].
  apply trial_inv in Ht as (_ & Hn & Hv).
  destruct v.
  - destruct Hv as (_ & -> & Hd & _). intros Hm.
    apply IH in Hm as (rej & q & -> & -> & Hn' & Hp).
    exists (p :: rej), q. split; [done|]. simpl length. split.
    + destruct self; unfold set_n_successes, set_n_rejections; simpl. f_equal; lia.
    + split; [lia|]. by rewrite <- Hd.
  - destruct Hv as (_ & -> & Hp & _). intros [= <- <- <-].
    exists [], p. split; [done|]. split.
    + destruct self; unfold set_n_successes, set_n_rejections; simpl. f_equal; lia.
    + split; [simpl; lia | done].
Qed.

(** Neither counter decreases over the trials of one sample, whether the
    loop returns or raises. *)
Lemma mode_b_monotone self fr pending :
  n_successes self <= n_successes (mode_b self fr pending).1 /\
  n_rejections self <= n_rejections (mode_b self fr pending).1 /\
  perlin_gen (mode_b self fr pending).1 = perlin_gen self.
Proof.
  revert self fr. induction pending as [|p ps IH]; intros self fr; simpl;
    [repeat split; (lia || done)|].
  destruct (trial self fr p) as [[[v self1] fr1]|e] eqn:Ht;
    [|simpl; repeat split; (lia || done)].
  apply trial_inv in Ht as (_ & _ & Hv). destruct v.
  - destruct Hv as (_ & -> & _). specialize (IH (set_n_rejections self (n_rejections self + 1)) fr1).
    simpl in IH. destruct IH as (? & ? & ->). simpl. repeat split; (lia || done).
  - destruct Hv as (_ & -> & _). simpl. repeat split; (lia || done).
Qed.

Lemma mode_a_monotone self dt tg pending :
  n_successes self <= n_successes (mode_a self dt tg pending).1 /\
  n_rejections self <= n_rejections (mode_a self dt tg pending).1 /\
  perlin_gen (mode_a self dt tg pending).1 = perlin_gen self.
Proof.
  unfold mode_a. destruct pending as [|[desc t] ps]; simpl;
    [repeat split; (lia || done)|].
  destruct (paint dt desc ≫= _) as [[d' t']|e]; simpl; repeat split; (lia || done).
Qed.

Lemma new_canvas_counters self :
  n_successes (new_canvas self).1 = n_successes self /\
  n_rejections (new_canvas self).1 = n_rejections self /\
  collision_check (new_canvas self).1 = collision_check self.
Proof.
  unfold new_canvas. destruct (enable_perlin self); [|done].
  destruct (perlin_gen self) as [p|]; [|done].
  by destruct (get_background_noise p).
Qed.

Lemma next_monotone self it :
  n_successes self <= n_successes (next self it).1 /\
  n_rejections self <= n_rejections (next self it).1.
Proof.
  unfold next. pose proof (new_canvas_counters self) as (Hs & Hr & _).
  destruct (new_canvas self) as [self1 [data0|e]]; simpl in *; [|lia].
  destruct (new_targets self1) as [t0|e]; simpl; [|lia].
  destruct (collision_check self1); simpl.
  - destruct (it_collider it) as [c0|]; simpl; [|lia].
    pose proof (mode_b_monotone self1 (MkFrame c0 data0 t0 0 (it_stderr it)) (it_gen it)) as (? & ? & _).
    destruct (mode_b _ _ _) as [self2 [[fr rest]|e]]; simpl in *; lia.
  - pose proof (mode_a_monotone self1 data0 t0 (it_gen it)) as (? & ? & _).
    destruct (mode_a _ _ _ _) as [self2 [[[d' t'] rest]|e]]; simpl in *; lia.
Qed.
End Trials.

(** * Proposals that honour the source contract *)

Section Totality.
Context `{PerlinNoiseGenerator}.
Import SpritePlacer NumpyFacts.

Lemma fill_canvas_shaped {A} self (m : array2 A) v :
  canvas_shaped self m -> canvas_shaped self (fill m v).
Proof.
  intros [Hr Hs]. split.
  - unfold rect, fill in *; simpl. apply Forall_fmap.
    eapply Forall_impl; [exact Hr|]. simpl. intros r Hl. by rewrite length_fmap.
  - unfold shape, nrows, fill in *; simpl. by rewrite length_fmap.
Qed.



Lemma axis_patch (n pn : nat) (pos size : Z) :
  0 <= size -> 0 <= pos -> pos + size <= Z.of_nat n -> pn = Z.to_nat size ->
  (slice_index n (pos + size) - slice_index n pos)%nat = pn.
Proof. intros ? ? ? ->. rewrite !slice_index_nonneg by lia. lia. Qed.

Lemma paint_sprite_returns self (dt : array2 pixel) pl :
  0 <= h self -> 0 <= w self ->
  canvas_shaped self dt -> placement_ok self pl ->
  exists dt', assign_slice dt pl.1.2 (pl.1.2 + Sprite.h pl.2) pl.1.1 (pl.1.1 + Sprite.w pl.2)
                (Sprite.patch pl.2) = Return dt' /\
              canvas_shaped self dt'.
Proof.
  intros Hh Hw [Hr Hs] (Hwf & Hx & Hxw & Hy & Hyh).
  destruct Hwf as [Hsh Hsw _ _ _ _ _ _ Spatch _].
  injection Hs as Hnr Hnc. injection Spatch as Pnr Pnc.
  unfold assign_slice.
  destruct (update_slice _ dt _ _ _ _ _) as [dt'|e] eqn:E.
  - exists dt'. split; [done|].
    destruct (update_slice_shape _ _ _ _ _ _ _ _ E) as [Hs' Hr']. split; [auto|].
    rewrite Hs'. unfold shape. by rewrite Hnr, Hnc.
  - exfalso. unfold update_slice in E.
    rewrite (axis_patch (nrows dt) (nrows (Sprite.patch pl.2)) pl.1.2 (Sprite.h pl.2)) in E by lia.
    rewrite (axis_patch (ncols dt) (ncols (Sprite.patch pl.2)) pl.1.1 (Sprite.w pl.2)) in E by lia.
    unfold broadcastable in E. rewrite !Nat.eqb_refl in E. discriminate.
Qed.

Lemma paint_returns self (dt : array2 pixel) desc :
  0 <= h self -> 0 <= w self ->
  canvas_shaped self dt -> Forall (placement_ok self) desc ->
  exists dt', paint dt desc = Return dt' /\ canvas_shaped self dt'.
Proof.
  intros Hh Hw Hc Hd. revert dt Hc.
  induction Hd as [|[[x y] sp] desc Hp _ IH]; intros dt Hc; simpl.
  - eauto.
  - destruct (paint_sprite_returns self dt _ Hh Hw Hc Hp) as (dt1 & E & Hc1).
    simpl in E. rewrite E. simpl. by apply IH.
Qed.

Lemma assign_targets_returns (self : t) (targets : list Q) (tg : target) :
  length tg = length targets \/ length tg = 1%nat ->
  exists t', assign_targets self targets tg = Return t' /\ length t' = length targets.
Proof.
  unfold assign_targets. intros [Hl|Hl].
  - rewrite Hl, Nat.eqb_refl. eexists. split; [done|].
    by rewrite length_fmap.
  - destruct (Nat.eqb_spec (length tg) (length targets)) as [He|He].
    { eexists. split; [done|]. by rewrite length_fmap. }
    destruct tg as [|v [|? ?]]; try discriminate.
    eexists. split; [done|]. by rewrite length_replicate.
Qed.

End Totality.

(** * Properties of SpritePlacer *)

Section PlacerProperties.
Context `{PerlinNoiseGenerator}.
Import SpritePlacer NumpyFacts.

(** What the accumulation step adds, cell by cell: the mask cell covering
    [(i, j)], on the rows below [h - 1] and the columns below [w - 1]. *)
Lemma accumulate_sprite_cells self col x y sp :
  Sprite.wf sp -> canvas_shaped self col ->
  0 <= x < w self -> 0 <= y < h self ->
  exists col',
    accumulate_sprite self col x y sp = Return col' /\
    canvas_shaped self col' /\
    forall i j : nat,
      get col' i j =
        (fun v => v + if (Z.of_nat i <? h self - 1) && (Z.of_nat j <? w self - 1)
                      then mask_at sp x y (Z.of_nat i) (Z.of_nat j) else 0)
        <$> get col i j.
Proof.
  intros Hwf [Hr Hs] Hx Hy. injection Hs as Hnr Hnc.
  rewrite accumulate_sprite_clip by done.
  destruct (add_footprint_within_cells (h self - 1) (w self - 1) col x y sp)
    as (col' & E & Hs' & Hr' & Hget); [done|done|lia|lia|lia|lia|].
  exists col'. split; [done|]. split; [|done].
  split; [done|]. rewrite Hs'. unfold shape. by rewrite Hnr, Hnc.
Qed.

(** The same for the step as the specification words it: the mask cell
    covering [(i, j)], on every row and column of the canvas. *)
Lemma accumulate_sprite_spec_cells self col x y sp :
  Sprite.wf sp -> canvas_shaped self col ->
  0 <= x < w self -> 0 <= y < h self ->
  exists col',
    accumulate_sprite_spec self col x y sp = Return col' /\
    canvas_shaped self col' /\
    forall i j : nat,
      get col' i j =
        (fun v => v + if (Z.of_nat i <? h self) && (Z.of_nat j <? w self)
                      then mask_at sp x y (Z.of_nat i) (Z.of_nat j) else 0)
        <$> get col i j.
Proof.
  intros Hwf [Hr Hs] Hx Hy. injection Hs as Hnr Hnc. unfold accumulate_sprite_spec.
  destruct (add_footprint_within_cells (h self) (w self) col x y sp)
    as (col' & E & Hs' & Hr' & Hget); [done|done|lia|lia|lia|lia|].
  exists col'. split; [done|]. split; [|done].
  split; [done|]. rewrite Hs'. unfold shape. by rewrite Hnr, Hnc.
Qed.

(** Code and specification agree on a footprint that stays clear of the last
    row and the last column of the canvas, whatever it does at the top and
    at the left. *)
Lemma accumulate_sprite_agrees_inside self col x y sp :
  Sprite.wf sp ->
  y + Sprite.h sp + Sprite.marginh sp < h self ->
  x + Sprite.w sp + Sprite.marginw sp < w self ->
  accumulate_sprite self col x y sp = accumulate_sprite_spec self col x y sp.
Proof.
  intros Hwf Hb Hd. rewrite accumulate_sprite_clip by done.
  unfold accumulate_sprite_spec, add_footprint_within.
  rewrite !(Z.min_l _ (h self - 1)), !(Z.min_l _ (w self - 1)) by lia.
  rewrite !(Z.min_l _ (h self)), !(Z.min_l _ (w self)) by lia. done.
Qed.

(** C8. A source whose [out_format] is not "array" makes the constructor
    raise its assertion error, whatever proposals the source holds and
    whatever the two flags: nothing is pulled, no instance exists. *)
Theorem init_rejects_out_format gen collision_check enable_perlin :
  Source.out_format gen <> "array"%string ->
  __init__ gen collision_check enable_perlin = Raise AssertionError.
Proof.
  intros Hne. unfold __init__.
  destruct (String.eqb_spec (Source.out_format gen) "array"); [contradiction|reflexivity].
Qed.

Lemma init_accepts_array gen collision_check enable_perlin :
  Source.out_format gen = "array"%string ->
  is_Return (__init__ gen collision_check enable_perlin) = true.
Proof. intros E. unfold __init__. by rewrite E. Qed.

(** C6. On an instance whose counters are non-negative, [rejection_rate]
    leaves the instance as it is, returns [None] when both counters are zero
    and the quotient [n_rejections / (n_successes + n_rejections)]
    otherwise. *)
Theorem rejection_rate_spec (self : t) :
  0 <= n_successes self -> 0 <= n_rejections self ->
  (rejection_rate self).2 = self /\
  (n_successes self = 0 /\ n_rejections self = 0 ->
   (rejection_rate self).1 = None) /\
  (~ (n_successes self = 0 /\ n_rejections self = 0) ->
   (rejection_rate self).1 =
     Some (inject_Z (n_rejections self)
           / inject_Z (n_successes self + n_rejections self))%Q).
Proof.
  intros Hs Hr. unfold rejection_rate.
  destruct (Z.eqb_spec (n_successes self + n_rejections self) 0) as [E|E]; simpl.
  - split; [reflexivity|]. split; [reflexivity|]. intros Hn. exfalso. apply Hn. lia.
  - split; [reflexivity|]. split; [|reflexivity]. intros [? ?]. lia.
Qed.


End PlacerProperties.

(** * The placer on concrete inputs *)

Section PlacerExamples.
Import Examples SpritePlacer.
#[local] Existing Instance counting_noise.

Lemma block_wf : Sprite.wf block.
Proof. split; try (vm_compute; congruence); try reflexivity; repeat constructor. Qed.

Lemma init_source88 :
  __init__ (source88 "array") true true = Return (placer88 counting_noise true) /\
  iter_start (placer88 counting_noise true) = Return (iter88 counting_noise).
Proof. split; reflexivity. Qed.

(** C1, the code at the failing inputs. Canvas 8x8. A 2x2 sprite with a
    margin of one cell at (x=5, y=3) has the footprint rows [2,6), columns
    [4,8), all of it on the canvas: the code adds columns 4 to 6 of it and
    leaves column 7 out, where the specification adds the full mask. The same
    sprite with a margin of three columns reaches two columns past the right
    edge: the code adds columns 2 to 6, three columns short of the mask, where
    the specification adds columns 2 to 7. *)
Theorem accumulate_sprite_misses_last_column :
  accumulate_sprite (placer88 counting_noise false) (constant 8 8 0) 5 3 block
  = Return (Array2 8
      [[0; 0; 0; 0; 0; 0; 0; 0]; [0; 0; 0; 0; 0; 0; 0; 0];
       [0; 0; 0; 0; 1; 1; 1; 0]; [0; 0; 0; 0; 1; 1; 1; 0];
       [0; 0; 0; 0; 1; 1; 1; 0]; [0; 0; 0; 0; 1; 1; 1; 0];
       [0; 0; 0; 0; 0; 0; 0; 0]; [0; 0; 0; 0; 0; 0; 0; 0]]) /\
  accumulate_sprite_spec (placer88 counting_noise false) (constant 8 8 0) 5 3 block
  = Return (Array2 8
      [[0; 0; 0; 0; 0; 0; 0; 0]; [0; 0; 0; 0; 0; 0; 0; 0];
       [0; 0; 0; 0; 1; 1; 1; 1]; [0; 0; 0; 0; 1; 1; 1; 1];
       [0; 0; 0; 0; 1; 1; 1; 1]; [0; 0; 0; 0; 1; 1; 1; 1];
       [0; 0; 0; 0; 0; 0; 0; 0]; [0; 0; 0; 0; 0; 0; 0; 0]]) /\
  accumulate_sprite (placer88 counting_noise false) (constant 8 8 0) 5 3 wide
  = Return (Array2 8
      [[0; 0; 0; 0; 0; 0; 0; 0]; [0; 0; 0; 0; 0; 0; 0; 0];
       [0; 0; 1; 1; 1; 1; 1; 0]; [0; 0; 1; 1; 1; 1; 1; 0];
       [0; 0; 1; 1; 1; 1; 1; 0]; [0; 0; 1; 1; 1; 1; 1; 0];
       [0; 0; 0; 0; 0; 0; 0; 0]; [0; 0; 0; 0; 0; 0; 0; 0]]) /\
  accumulate_sprite_spec (placer88 counting_noise false) (constant 8 8 0) 5 3 wide
  = Return (Array2 8
      [[0; 0; 0; 0; 0; 0; 0; 0]; [0; 0; 0; 0; 0; 0; 0; 0];
       [0; 0; 1; 1; 1; 1; 1; 1]; [0; 0; 1; 1; 1; 1; 1; 1];
       [0; 0; 1; 1; 1; 1; 1; 1]; [0; 0; 1; 1; 1; 1; 1; 1];
       [0; 0; 0; 0; 0; 0; 0; 0]; [0; 0; 0; 0; 0; 0; 0; 0]]).
Proof. repeat split; vm_compute; reflexivity. Qed.

(** What the missing column costs: two 1x1 sprites proposed on the same cell
    of the last column leave the accumulator empty and are accepted, while
    the same two sprites one column to the left are rejected. *)
Lemma stacked_on_last_column_accepted :
  (exists s f, trial (placer88 counting_noise false) (frame88 counting_noise) stacked
               = Return (Accepted, s, f) /\ collider f = constant 8 8 0) /\
  (exists s f, trial (placer88 counting_noise false) (frame88 counting_noise)
                 ([((6, 3), dot); ((6, 3), dot)], [0%Q])
               = Return (Rejected, s, f)).
Proof. split; do 2 eexists; [split|]; vm_compute; reflexivity. Qed.

(** The constructor on a source that announces "csv". *)
Lemma init_rejects_out_format_witness :
  Source.out_format (source88 "csv") <> "array"%string /\
  __init__ (source88 "csv") true true = Raise AssertionError.
Proof.
  assert (Hne : Source.out_format (source88 "csv") <> "array"%string)
    by (vm_compute; congruence).
  split; [exact Hne|]. exact (init_rejects_out_format (source88 "csv") true true Hne).
Defined.

(** After three successes and one rejection the rate is 1/4; on a fresh
    instance there is none. *)
Lemma rejection_rate_spec_witness :
  (rejection_rate (placer_3_1 counting_noise)).2 = placer_3_1 counting_noise /\
  (rejection_rate (placer_3_1 counting_noise)).1 = Some (inject_Z 1 / inject_Z 4)%Q /\
  (rejection_rate (placer88 counting_noise false)).1 = None.
Proof.
  destruct (rejection_rate_spec (placer_3_1 counting_noise)) as (Hs & _ & Hq);
    [simpl; lia|simpl; lia|].
  destruct (rejection_rate_spec (placer88 counting_noise false)) as (_ & Hn & _);
    [simpl; lia|simpl; lia|].
  split; [exact Hs|]. split.
  - apply Hq. simpl. intros [? _]. discriminate.
  - apply Hn. split; reflexivity.
Defined.

Lemma frame88_ok : frame_ok (placer88 counting_noise false) (frame88 counting_noise).
Proof. repeat split; repeat constructor. Qed.

Lemma disjoint_ok :
  proposal_ok (placer88 counting_noise false) (frame88 counting_noise) disjoint.
Proof.
  split; [|left; reflexivity].
  repeat constructor; try apply block_wf; simpl; lia.
Qed.



End PlacerExamples.

(** * The linear congruential generator meets numpy's contract *)

Section LcgContract.
Import Lcg.

Lemma Qltb_spec x y : Qltb x y = true <-> (x < y)%Q.
Proof. unfold Qltb, Qlt. apply Z.ltb_lt. Qed.

Lemma step_range s : 0 <= step s < modulus.
Proof. unfold step. apply Z.mod_pos_bound. reflexivity. Qed.

Lemma uniform_range s : 0 <= s < modulus -> (0 <= uniform s)%Q /\ (uniform s < 1)%Q.
Proof.
  intros Hs. unfold uniform, Qle, Qlt, modulus in *.
  change (Z.to_pos (2 ^ 31)) with 2147483648%positive.
  change (2 ^ 31) with 2147483648 in Hs. simpl. lia.
Qed.

Lemma successes_range n s p : 0 <= (successes n s p).1 <= Z.of_nat n.
Proof.
  revert s. induction n as [|n IH]; intros s; simpl successes; [simpl; lia|].
  cbv zeta. specialize (IH (step s)). cbn [fst]. destruct (Qltb _ _); lia.
Qed.

Lemma successes_certain n s p : (p == 1)%Q -> (successes n s p).1 = Z.of_nat n.
Proof.
  intros Hp. revert s. induction n as [|n IH]; intros s; simpl successes; [done|].
  cbv zeta. cbn [fst]. rewrite IH.
  destruct (Qltb (uniform (step s)) p) eqn:E; [lia|].
  exfalso. apply not_true_iff_false in E. apply E. apply Qltb_spec. rewrite Hp.
  apply uniform_range, step_range.
Qed.

Lemma successes_impossible n s p : (p == 0)%Q -> (successes n s p).1 = 0.
Proof.
  intros Hp. revert s. induction n as [|n IH]; intros s; simpl successes; [done|].
  cbv zeta. cbn [fst]. rewrite IH.
  destruct (Qltb (uniform (step s)) p) eqn:E; [|lia].
  exfalso. apply Qltb_spec in E. rewrite Hp in E.
  destruct (uniform_range (step s) (step_range s)) as [H0 _].
  apply (Qlt_irrefl 0). eapply Qle_lt_trans; eauto.
Qed.

Lemma binomials_length cells n s p : length (binomials cells n s p).1 = cells.
Proof. revert s. induction cells as [|c IH]; intros s; simpl; [done|]. by rewrite IH. Qed.

Lemma binomials_Forall (P : Z -> Prop) cells n s p :
  (forall s', P (successes n s' p).1) -> Forall P (binomials cells n s p).1.
Proof.
  intros HP. revert s. induction cells as [|c IH]; intros s; simpl; [constructor|].
  constructor; [apply HP|apply IH].
Qed.

Lemma normals_length cells s loc scale : length (normals cells s loc scale).1 = cells.
Proof. revert s. induction cells as [|c IH]; intros s; simpl; [done|]. by rewrite IH. Qed.

Lemma lcg_contract : @NumpyRandomContract random.
Proof.
  split; simpl.
  - intros s size n p d s'. destruct (_ || _); [done|]. intros [= <- <-].
    split; [done|]. unfold nd_wf; simpl. apply binomials_length.
  - intros s size n p d s'. destruct (n <? 0) eqn:En; [done|]. simpl.
    destruct (_ || _); [done|]. intros [= <- <-]. simpl.
    apply binomials_Forall. intros s0. pose proof (successes_range (Z.to_nat n) s0 p). lia.
  - intros s size n p d s' Hp. destruct (n <? 0) eqn:En; [done|]. simpl.
    destruct (_ || _); [done|]. intros [= <- <-]. simpl.
    apply binomials_Forall. intros s0. rewrite successes_certain by done. lia.
  - intros s size n p d s' Hp. destruct (n <? 0) eqn:En; [done|]. simpl.
    destruct (_ || _); [done|]. intros [= <- <-]. simpl.
    apply binomials_Forall. intros s0. by rewrite successes_impossible.
  - intros s size n p Hn Hp0 Hp1.
    destruct (Z.ltb_spec n 0); [lia|]. simpl.
    destruct (Qltb p 0) eqn:E0.
    { apply Qltb_spec in E0. exfalso. apply (Qlt_irrefl p). eapply Qlt_le_trans; eauto. }
    destruct (Qltb 1 p) eqn:E1.
    { apply Qltb_spec in E1. exfalso. apply (Qlt_irrefl p). eapply Qle_lt_trans; eauto. }
    simpl. eauto.
  - intros s size loc scale d s'. destruct (Qltb scale 0); [done|]. intros [= <- <-].
    split; [done|]. unfold nd_wf; simpl. apply normals_length.
Qed.
End LcgContract.

(** * Properties of the corruptors *)

Section PyMod.
Local Open Scope Q_scope.

(** The remainder of a division by a positive modulus lies in [0, m). *)
Lemma py_mod_range (x m : Q) : 0 < m -> 0 <= py_mod x m /\ py_mod x m < m.
Proof.
  intros Hm. unfold py_mod.
  pose proof (Qfloor_le (x / m)) as Hlo.
  pose proof (Qlt_floor (x / m)) as Hhi.
  rewrite inject_Z_plus in Hhi. change (inject_Z 1) with 1 in Hhi.
  set (f := inject_Z (Qfloor (x / m))) in *.
  assert (Hx : x == m * (x / m)).
  { rewrite Qmult_div_r; [reflexivity|]. intros E. rewrite E in Hm. discriminate. }
  assert (H1 : m * f <= m * (x / m)) by (apply Qmult_le_l; assumption).
  assert (H2 : m * (x / m) < m * (f + 1)) by (apply Qmult_lt_l; assumption).
  rewrite <- Hx in H1, H2. rewrite Qmult_plus_distr_r, Qmult_1_r in H2.
  split; lra.
Qed.

(** The remainder differs from a non-negative number by a whole, and
    non-negative, number of moduli. *)
Lemma py_mod_decompose (x m : Q) :
  0 < m -> 0 <= x ->
  exists k : Z, (0 <= k)%Z /\ py_mod x m == x - m * inject_Z k.
Proof.
  intros Hm Hx. exists (Qfloor (x / m)). split; [|reflexivity].
  change 0%Z with (Qfloor 0). apply Qfloor_resp_le.
  apply Qle_shift_div_l; [done|]. by rewrite Qmult_0_l.
Qed.

Lemma Qmult_one_l_eq (v : Q) : inject_Z 1 * v = v.
Proof. destruct v as [n d]. unfold Qmult; simpl. f_equal. by destruct n. Qed.

Lemma Qmult_zero_l (v : Q) : inject_Z 0 * v == 0.
Proof. destruct v as [n d]. reflexivity. Qed.
End PyMod.

Section CorruptorProperties.
Context `{NumpyRandom} (C : NumpyRandomContract).
Import Corruptors.

Lemma elementwise_same_shape {A B D} (f : A -> B -> D) (a : ndarray A) (b : ndarray B) :
  nd_shape a = nd_shape b ->
  elementwise f a b = Return (NdArray (nd_shape b) (zip_with f (nd_data a) (nd_data b))).
Proof. intros E. unfold elementwise. by rewrite decide_True. Qed.

Lemma zip_with_ones (ks : list Z) (vs : list Q) :
  Forall (fun k => k = 1) ks -> length ks = length vs ->
  zip_with (fun k v => (inject_Z k * v)%Q) ks vs = vs.
Proof.
  intros Hk. revert vs. induction Hk as [|k ks -> _ IH]; intros [|v vs] Hl;
    simpl in *; try discriminate; [done|].
  rewrite Qmult_one_l_eq. f_equal. apply IH. lia.
Qed.

Lemma zip_with_zeros (ks : list Z) (vs : list Q) :
  Forall (fun k => k = 0) ks ->
  Forall (fun v => (v == 0)%Q) (zip_with (fun k v => (inject_Z k * v)%Q) ks vs).
Proof.
  intros Hk. revert vs. induction Hk as [|k ks -> _ IH]; intros [|v vs]; simpl;
    try constructor; [apply Qmult_zero_l|apply IH].
Qed.

Lemma zip_with_masks (ks : list Z) (vs : list Q) :
  Forall (fun k => 0 <= k <= 1) ks -> length ks = length vs ->
  Forall2 (fun o v => (o == 0)%Q \/ o = v)
    (zip_with (fun k v => (inject_Z k * v)%Q) ks vs) vs.
Proof.
  intros Hk. revert vs. induction Hk as [|k ks Hr _ IH]; intros [|v vs] Hl;
    simpl in *; try discriminate; constructor.
  - assert (k = 0 \/ k = 1) as [-> | ->] by lia.
    + left. apply Qmult_zero_l.
    + right. apply Qmult_one_l_eq.
  - apply IH. lia.
Qed.

(** A call of the binomial corruptor: the draw it asks for and what it
    returns. *)
Lemma binomial_corrupt_inv self x out self' :
  BinomialCorruptor_corrupt self x = Return (out, self') ->
  exists draw s',
    binomial (s_rng self) (nd_shape x) 1 (1 - corruption_level self)%Q = Return (draw, s') /\
    self' = set_s_rng self s' /\
    nd_shape out = nd_shape x /\
    nd_data out = zip_with (fun k v => (inject_Z k * v)%Q) (nd_data draw) (nd_data x).
Proof.
  unfold BinomialCorruptor_corrupt. intros Hc.
  destruct (binomial _ _ _ _) as [[draw s']|e] eqn:Ed; [|discriminate]. simpl in Hc.
  destruct (binomial_shape C _ _ _ _ _ _ Ed) as [Hs _].
  rewrite elementwise_same_shape in Hc by done. simpl in Hc.
  injection Hc as <- <-. by exists draw, s'.
Qed.

Lemma binomial_corrupt_returns self x draw s' :
  binomial (s_rng self) (nd_shape x) 1 (1 - corruption_level self)%Q = Return (draw, s') ->
  BinomialCorruptor_corrupt self x
  = Return (NdArray (nd_shape x)
              (zip_with (fun k v => (inject_Z k * v)%Q) (nd_data draw) (nd_data x)),
            set_s_rng self s').
Proof.
  intros Ed. unfold BinomialCorruptor_corrupt. rewrite Ed. simpl.
  destruct (binomial_shape C _ _ _ _ _ _ Ed) as [Hs _].
  by rewrite elementwise_same_shape.
Qed.

(** C4. The binomial corruptor returns the elementwise product of its input
    with a draw of one trial per cell of success probability
    [1 - corruption_level]; at level 0 it returns its input, at level 1 an
    array of the input's shape whose cells are all zero. *)
Theorem binomial_corrupt_extremes self x :
  nd_wf x ->
  (forall out self',
     BinomialCorruptor_corrupt self x = Return (out, self') ->
     exists draw s',
       binomial (s_rng self) (nd_shape x) 1 (1 - corruption_level self)%Q
       = Return (draw, s') /\
       self' = set_s_rng self s' /\
       nd_shape out = nd_shape x /\
       nd_data out = zip_with (fun k v => (inject_Z k * v)%Q) (nd_data draw) (nd_data x)) /\
  ((corruption_level self == 0)%Q ->
   exists s', BinomialCorruptor_corrupt self x = Return (x, set_s_rng self s')) /\
  ((corruption_level self == 1)%Q ->
   exists out s',
     BinomialCorruptor_corrupt self x = Return (out, set_s_rng self s') /\
     nd_shape out = nd_shape x /\
     length (nd_data out) = length (nd_data x) /\
     Forall (fun v => (v == 0)%Q) (nd_data out)).
Proof.
  intros Hx. split; [|split].
  - intros out self'. apply binomial_corrupt_inv.
  - intros Hl.
    assert (Hp : (1 - corruption_level self == 1)%Q) by (rewrite Hl; reflexivity).
    destruct (binomial_total C (s_rng self) (nd_shape x) 1 (1 - corruption_level self)%Q)
      as (draw & s' & Ed); [lia|rewrite Hp; discriminate|rewrite Hp; discriminate|].
    exists s'. rewrite (binomial_corrupt_returns _ _ _ _ Ed). do 2 f_equal.
    destruct (binomial_shape C _ _ _ _ _ _ Ed) as [Hs Hw].
    rewrite zip_with_ones.
    + by destruct x.
    + exact (binomial_certain C _ _ _ _ _ _ Hp Ed).
    + unfold nd_wf in *. by rewrite Hw, Hs.
  - intros Hl.
    assert (Hp : (1 - corruption_level self == 0)%Q) by (rewrite Hl; reflexivity).
    destruct (binomial_total C (s_rng self) (nd_shape x) 1 (1 - corruption_level self)%Q)
      as (draw & s' & Ed); [lia|rewrite Hp; discriminate|rewrite Hp; discriminate|].
    eexists _, s'. split; [exact (binomial_corrupt_returns _ _ _ _ Ed)|]. simpl.
    destruct (binomial_shape C _ _ _ _ _ _ Ed) as [Hs Hw].
    split; [done|]. split.
    + rewrite length_zip_with. unfold nd_wf in *. rewrite Hw, Hs, Hx. lia.
    + apply zip_with_zeros. exact (binomial_impossible C _ _ _ _ _ _ Hp Ed).
Qed.

(** C10. Whatever the level and the generator's state, the binomial
    corruptor returns an array of the input's shape, each cell of which is
    zero or the input's cell at that place. *)
Theorem binomial_corrupt_masks self x out self' :
  nd_wf x ->
  BinomialCorruptor_corrupt self x = Return (out, self') ->
  nd_shape out = nd_shape x /\
  Forall2 (fun o v => (o == 0)%Q \/ o = v) (nd_data out) (nd_data x).
Proof.
  intros Hx Hc.
  apply binomial_corrupt_inv in Hc as (draw & s' & Ed & _ & Hs & ->).
  split; [done|].
  destruct (binomial_shape C _ _ _ _ _ _ Ed) as [Hds Hw].
  apply zip_with_masks.
  - exact (binomial_range C _ _ _ _ _ _ Ed).
  - unfold nd_wf in *. by rewrite Hw, Hds.
Qed.

(** The Gaussian corruptor on the noise its generator draws. *)
Lemma gaussian_corrupt_returns self x noise s' :
  nd_wf x ->
  normal (s_rng self) (nd_shape x) 0%Q (corruption_level self) = Return (noise, s') ->
  GaussianCorruptor_corrupt self x
  = Return (NdArray (nd_shape x)
              (zip_with (fun n v => py_mod (Qabs (n + v)) 255%Q)
                 (nd_data noise) (nd_data x)),
            set_s_rng self s') /\
  length (nd_data noise) = length (nd_data x).
Proof.
  intros Hx En. unfold GaussianCorruptor_corrupt. rewrite En. simpl.
  destruct (normal_shape C _ _ _ _ _ _ En) as [Hs Hw].
  rewrite elementwise_same_shape by done. simpl. split; [done|].
  unfold nd_wf in *. by rewrite Hw, Hs, Hx.
Qed.

(** Two lists of one length, cell against cell. *)
Lemma Forall2_zip_with {A B D E} (P : D -> E -> Prop) (f : A -> B -> D)
    (g : A -> B -> E) (l : list A) (k : list B) :
  (forall a b, P (f a b) (g a b)) ->
  Forall2 P (zip_with f l k) (zip_with g l k).
Proof.
  intros Hfg. revert k. induction l as [|a l IH]; intros [|b k]; simpl;
    constructor; [apply Hfg|apply IH].
Qed.

(** C3. Given the noise the generator draws (mean 0, deviation
    [corruption_level], of the input's shape), the Gaussian corruptor returns
    [abs (noise + x) % 255] cell by cell, an array of the input's shape: each
    cell lies in [0, 255) and is the absolute value of the noise plus the
    input, less a whole, non-negative number of times 255. *)
Theorem gaussian_corrupt_range self x noise s' :
  nd_wf x ->
  normal (s_rng self) (nd_shape x) 0%Q (corruption_level self) = Return (noise, s') ->
  exists out,
    GaussianCorruptor_corrupt self x = Return (out, set_s_rng self s') /\
    nd_shape out = nd_shape x /\
    nd_data out = zip_with (fun n v => py_mod (Qabs (n + v)) 255%Q)
                    (nd_data noise) (nd_data x) /\
    length (nd_data out) = length (nd_data x) /\
    Forall (fun v => (0 <= v)%Q /\ (v < 255)%Q) (nd_data out) /\
    Forall2 (fun o t => exists k : Z,
               0 <= k /\ (o == Qabs t - 255 * inject_Z k)%Q)
      (nd_data out) (zip_with Qplus (nd_data noise) (nd_data x)).
Proof.
  intros Hx En.
  destruct (gaussian_corrupt_returns self x noise s' Hx En) as [E Hl].
  eexists. split; [exact E|]. simpl. split; [done|]. split; [done|]. split; [|split].
  - rewrite length_zip_with. rewrite Hl. apply Nat.min_id.
  - clear. generalize (nd_data x). induction (nd_data noise) as [|n ns IH]; intros [|v vs];
      simpl; constructor; [|apply IH].
    apply py_mod_range. reflexivity.
  - apply Forall2_zip_with. intros n v.
    apply py_mod_decompose; [reflexivity|apply Qabs_nonneg].
Qed.

(** The generator's state after a call depends on the shape of the input
    only. *)
Lemma call_state_by_shape self x y r1 r2 :
  nd_shape x = nd_shape y ->
  __call__ self x = Return r1 -> __call__ self y = Return r2 -> r1.2 = r2.2.
Proof.
  intros Hs. unfold __call__.
  destruct (cls self); try discriminate.
  - intros [= <-] [= <-]. done.
  - destruct r1 as [o1 c1], r2 as [o2 c2]. intros H1 H2.
    apply binomial_corrupt_inv in H1 as (d1 & s1 & E1 & -> & _).
    apply binomial_corrupt_inv in H2 as (d2 & s2 & E2 & -> & _).
    rewrite Hs, E2 in E1. by injection E1 as <- <-.
  - unfold GaussianCorruptor_corrupt. rewrite Hs.
    destruct (normal _ _ _ _) as [[noise s']|e]; [|discriminate]. simpl.
    destruct (elementwise _ noise x) as [o1|]; [|discriminate].
    destruct (elementwise _ noise y) as [o2|]; [|discriminate]. simpl.
    by intros [= <-] [= <-].
Qed.

Lemma calls_state_by_shapes self xs ys r1 r2 :
  nd_shape <$> xs = nd_shape <$> ys ->
  calls self xs = Return r1 -> calls self ys = Return r2 -> r1.2 = r2.2.
Proof.
  revert self ys r1 r2. induction xs as [|x xs IH]; intros self [|y ys] r1 r2 Hs;
    try discriminate; simpl.
  - by intros [= <-] [= <-].
  - injection Hs as Hx Hxs.
    destruct (__call__ self x) as [c1|] eqn:E1; [|discriminate].
    destruct (__call__ self y) as [c2|] eqn:E2; [|discriminate]. simpl.
    rewrite (call_state_by_shape _ _ _ _ _ Hx E1 E2).
    destruct (calls (c2.2) xs) as [q1|] eqn:F1; [|discriminate].
    destruct (calls (c2.2) ys) as [q2|] eqn:F2; [|discriminate]. simpl.
    intros [= <-] [= <-]. simpl. exact (IH _ _ _ _ Hxs F1 F2).
Qed.

(** A call keeps the class and the level of the instance, and the shape
    of its input. *)
Lemma call_invariant self x out self' :
  __call__ self x = Return (out, self') ->
  cls self' = cls self /\ corruption_level self' = corruption_level self /\
  nd_shape out = nd_shape x.
Proof.
  unfold __call__. destruct (cls self) eqn:Hc; try discriminate.
  - by intros [= <- <-].
  - unfold BinomialCorruptor_corrupt. intros E.
    apply result_bind_Return in E as (draw & _ & E).
    apply result_bind_Return in E as (o & Eo & E). injection E as <- <-.
    unfold elementwise in Eo. destruct (decide _); [|discriminate]. by injection Eo as <-.
  - unfold GaussianCorruptor_corrupt. intros E.
    apply result_bind_Return in E as (noise & _ & E).
    apply result_bind_Return in E as (o & Eo & E). injection E as <- <-.
    unfold elementwise in Eo. destruct (decide _); [|discriminate]. by injection Eo as <-.
Qed.

End CorruptorProperties.

Section GetProperties.
Import Corruptors.

(** [get] case by case, on any module dictionary. *)
Lemma get_cases (globals : gmap string pyobj) (name : string) :
  get globals name =
    match globals !! name with
    | None => Raise (KeyError name)
    | Some (PyClass k) =>
        if bool_decide (Corruptor ∈ mro k) then Return (PyClass k)
        else Raise (NameError name)
    | Some _ => Raise TypeError
    end.
Proof. unfold get. destruct (globals !! name) as [[]|]; reflexivity. Qed.

Lemma module_globals_bindings name obj :
  module_globals !! name = Some obj ->
  match obj with
  | PyClass k => Corruptor ∈ mro k
  | _ => True
  end.
Proof.
  unfold module_globals. intros Hl. apply elem_of_list_to_map_2 in Hl.
  repeat (apply elem_of_cons in Hl as [Hl|Hl]; [injection Hl as -> ->; simpl; try done; set_solver|]).
  by apply elem_of_nil in Hl.
Qed.

(** C9, the code at the failing input. In corruptor.py, [get("np")] finds the
    numpy module, which is no class: [issubclass] raises a type error and the
    [NameError] of the last line is not reached. The same holds of every
    name of the module that is not bound to a Corruptor class: no name at
    all makes [get] raise [NameError]. An unknown name raises [KeyError], and
    the four classes are returned. *)
Theorem get_np_raises_TypeError :
  get module_globals "np" = Raise TypeError /\
  get module_globals "get" = Raise TypeError /\
  (forall name,
     match get module_globals name with
     | Raise (NameError _) => False
     | _ => True
     end) /\
  get module_globals "SaltPepperCorruptor" = Raise (KeyError "SaltPepperCorruptor") /\
  get module_globals "BinomialCorruptor" = Return (PyClass BinomialCorruptor) /\
  get module_globals "GaussianCorruptor" = Return (PyClass GaussianCorruptor) /\
  get module_globals "DummyCorruptor" = Return (PyClass DummyCorruptor) /\
  get module_globals "Corruptor" = Return (PyClass Corruptor).
Proof.
  split; [by vm_compute|]. split; [by vm_compute|]. split.
  - intros name. rewrite get_cases.
    destruct (module_globals !! name) as [obj|] eqn:E; [|done].
    apply module_globals_bindings in E. destruct obj; try done.
    by rewrite bool_decide_true.
  - repeat split; by vm_compute.
Qed.

(** An unknown name raises [KeyError], on any dictionary. *)
Lemma get_unknown_raises_KeyError (globals : gmap string pyobj) name :
  globals !! name = None -> get globals name = Raise (KeyError name).
Proof. intros E. by rewrite get_cases, E. Qed.

(** On a dictionary that binds a name to a class outside the Corruptor
    hierarchy, [get] does raise [NameError]. *)
Lemma get_other_class_raises_NameError (globals : gmap string pyobj) name :
  globals !! name = Some (PyClass object) ->
  get globals name = Raise (NameError name).
Proof. intros E. by rewrite get_cases, E. Qed.
End GetProperties.

(** * The corruptors on concrete inputs *)

Section CorruptorExamplesFacts.
Import Corruptors CorruptorExamples.
#[local] Existing Instance Lcg.random.

Lemma x22_wf : nd_wf x22.
Proof. reflexivity. Qed.

(** Levels 0 and 1 on a 2x2 input. *)
Lemma binomial_corrupt_extremes_witness :
  nd_wf x22 /\
  (exists s', BinomialCorruptor_corrupt (seeded BinomialCorruptor 0) x22
              = Return (x22, set_s_rng (seeded BinomialCorruptor 0) s')) /\
  (exists out s', BinomialCorruptor_corrupt (seeded BinomialCorruptor 1) x22
                  = Return (out, set_s_rng (seeded BinomialCorruptor 1) s') /\
                  Forall (fun v => (v == 0)%Q) (nd_data out)).
Proof.
  split; [exact x22_wf|]. split.
  - destruct (binomial_corrupt_extremes lcg_contract (seeded BinomialCorruptor 0) x22 x22_wf)
      as (_ & H0 & _). apply H0. reflexivity.
  - destruct (binomial_corrupt_extremes lcg_contract (seeded BinomialCorruptor 1) x22 x22_wf)
      as (_ & _ & H1). destruct H1 as (out & s' & E & _ & _ & Hz); [reflexivity|].
    by exists out, s'.
Defined.

(** Level 1/2 on a 2x2 input: the first cell survives, the others are
    zeroed. *)
Lemma binomial_corrupt_masks_witness :
  nd_wf x22 /\
  BinomialCorruptor_corrupt (seeded BinomialCorruptor (1 # 2)) x22
  = Return (NdArray [2; 2]%nat [10; 0; 0; 0]%Q,
            set_s_rng (seeded BinomialCorruptor (1 # 2)) 1431321538) /\
  Forall2 (fun o v => (o == 0)%Q \/ o = v) [10; 0; 0; 0]%Q (nd_data x22).
Proof.
  assert (E : BinomialCorruptor_corrupt (seeded BinomialCorruptor (1 # 2)) x22
              = Return (NdArray [2; 2]%nat [10; 0; 0; 0]%Q,
                        set_s_rng (seeded BinomialCorruptor (1 # 2)) 1431321538))
    by reflexivity.
  split; [exact x22_wf|]. split; [exact E|].
  exact (proj2 (binomial_corrupt_masks lcg_contract _ _ _ _ x22_wf E)).
Defined.

(** Deviation 300 on a 2x2 input. *)
Lemma gaussian_corrupt_range_witness :
  nd_wf x22 /\
  is_Return (normal rng2001 [2; 2]%nat 0%Q 300%Q) = true /\
  exists noise out s',
    normal rng2001 [2; 2]%nat 0%Q 300%Q = Return (noise, s') /\
    GaussianCorruptor_corrupt (seeded GaussianCorruptor 300) x22
    = Return (out, set_s_rng (seeded GaussianCorruptor 300) s') /\
    Forall (fun v => (0 <= v)%Q /\ (v < 255)%Q) (nd_data out) /\
    Forall2 (fun o t => exists k : Z,
               0 <= k /\ (o == Qabs t - 255 * inject_Z k)%Q)
      (nd_data out) (zip_with Qplus (nd_data noise) (nd_data x22)).
Proof.
  split; [exact x22_wf|]. split; [reflexivity|].
  destruct (normal rng2001 [2; 2]%nat 0%Q 300%Q) as [[noise s']|e] eqn:En;
    [|discriminate].
  destruct (gaussian_corrupt_range lcg_contract (seeded GaussianCorruptor 300) x22 noise s'
              x22_wf En) as (out & E & _ & _ & _ & Hr & Hk).
  by exists noise, out, s'.
Defined.
End CorruptorExamplesFacts.

(** * Independently built corruptors *)

Section HeapFacts.
Context `{NumpyRandom} (C : NumpyRandomContract).
Import Corruptors Heap.

(** A new generator sits at an address that held nothing, and leaves the
    other addresses as they were. *)
Lemma new_RandomState_inv (st : store) seed l st' :
  new_RandomState st seed = Return (l, st') ->
  exists s, RandomState_new seed = Return s /\ st !! l = None /\ st' = <[l := s]> st.
Proof.
  unfold new_RandomState. intros E.
  apply result_bind_Return in E as (s & Es & E). injection E as <- <-.
  exists s. split; [done|]. split; [|done].
  apply (not_elem_of_dom (D:=gset positive)). apply is_fresh.
Qed.

Lemma in_place_inv {A} (st : store) l
    (method : RandomState -> result (A * RandomState)) a st' :
  in_place st l method = Return (a, st') ->
  exists s s', st !! l = Some s /\ method s = Return (a, s') /\ st' = <[l := s']> st.
Proof.
  unfold in_place. destruct (st !! l) as [s|]; [|discriminate]. intros E.
  apply result_bind_Return in E as ([a' s'] & Em & E). injection E as <- <-.
  by exists s, s'.
Qed.

(** The constructor on the store builds the instance [__init__] describes,
    with a generator of its own: its address held nothing before, and the
    generators already there are left as they were. *)
Lemma init_inv (st : store) cls level seed o st' :
  init st cls level seed = Return (o, st') ->
  exists c,
    __init__ cls level seed = Return c /\
    o_cls o = cls /\ o_corruption_level o = level /\
    st !! o_s_rng o = None /\
    st' !! o_s_rng o = Some (s_rng c) /\
    (forall l s, st !! l = Some s -> st' !! l = Some s).
Proof.
  unfold init. intros E.
  apply result_bind_Return in E as ([l0 st0] & E0 & E).
  apply result_bind_Return in E as ([k st1] & E1 & E).
  apply result_bind_Return in E as ([l1 st2] & E2 & E).
  injection E as <- <-. simpl in *.
  apply new_RandomState_inv in E0 as (s0 & Es0 & Hl0 & ->).
  apply in_place_inv in E1 as (s0' & s0'' & Hs0' & Er & ->).
  rewrite lookup_insert_eq in Hs0'. injection Hs0' as <-.
  apply new_RandomState_inv in E2 as (s1 & Es1 & Hl1 & ->).
  assert (Hne : l0 <> l1).
  { intros <-. by rewrite lookup_insert_eq in Hl1. }
  rewrite !lookup_insert_ne in Hl1 by done.
  exists (Make cls s1 level). split.
  { unfold __init__. rewrite Es0. simpl. rewrite Er. simpl. by rewrite Es1. }
  split; [done|]. split; [done|]. split; [done|].
  split; [by rewrite lookup_insert_eq|].
  intros l s Hl.
  assert (l1 <> l) by (intros <-; congruence).
  assert (l0 <> l) by (intros <-; congruence).
  by rewrite !lookup_insert_ne.
Qed.

Lemma call_inv (st : store) o x out st' :
  call st o x = Return (out, st') ->
  exists s r,
    st !! o_s_rng o = Some s /\
    __call__ (Make (o_cls o) s (o_corruption_level o)) x = Return (out, r) /\
    st' = <[o_s_rng o := s_rng r]> st.
Proof.
  unfold call. intros E. apply in_place_inv in E as (s & s' & Hs & E & ->).
  apply result_bind_Return in E as ([out' r] & Ec & E). injection E as <- <-.
  by exists s, r.
Qed.

(** A call returns the instance with a new generator state and nothing else
    changed. *)
Lemma call_eta cls s level x out r :
  __call__ (Make cls s level) x = Return (out, r) -> r = Make cls (s_rng r) level.
Proof.
  intros E. apply call_invariant in E as (Hc & Hl & _). destruct r. simpl in *.
  by subst.
Qed.

(** Two instances whose generators sit at different addresses, called in any
    order: each returns what it would return if it were called alone on its
    own inputs, and its generator ends where it would end then. *)
Lemma run_separate (o1 o2 : obj) steps :
  o_s_rng o1 <> o_s_rng o2 ->
  forall (st : store) s1 s2 outs st',
    st !! o_s_rng o1 = Some s1 -> st !! o_s_rng o2 = Some s2 ->
    run st o1 o2 steps = Return (outs, st') ->
    exists r1 r2,
      calls (Make (o_cls o1) s1 (o_corruption_level o1)) (of_instance true steps)
      = Return r1 /\
      calls (Make (o_cls o2) s2 (o_corruption_level o2)) (of_instance false steps)
      = Return r2 /\
      of_instance true outs = r1.1 /\ of_instance false outs = r2.1 /\
      st' !! o_s_rng o1 = Some (s_rng (r1.2)) /\
      st' !! o_s_rng o2 = Some (s_rng (r2.2)).
Proof.
  intros Hne. induction steps as [|[who x] rest IH]; intros st s1 s2 outs st' H1 H2; simpl.
  - intros [= <- <-]. by eexists (_, _), (_, _).
  - intros E. apply result_bind_Return in E as ([out st1] & Ec & E).
    apply result_bind_Return in E as ([outs' st2] & Er & E). injection E as <- <-.
    apply call_inv in Ec as (s & r & Hs & Ec & ->). simpl in Er.
    pose proof (call_eta _ _ _ _ _ _ Ec) as Hr.
    destruct who; simpl in *.
    + rewrite H1 in Hs. injection Hs as <-.
      destruct (IH _ (s_rng r) s2 _ _ (lookup_insert_eq _ _ _)
                  (eq_trans (lookup_insert_ne _ _ _ _ Hne) H2) Er)
        as ([q1 c1] & r2 & F1 & F2 & Ho1 & Ho2 & Hf1 & Hf2).
      rewrite Ec. simpl. rewrite <- Hr in F1. rewrite F1. simpl.
      eexists (_, _), r2. split; [reflexivity|]. simpl in *.
      split; [done|]. split; [by f_equal|]. by split.
    + rewrite H2 in Hs. injection Hs as <-.
      destruct (IH _ s1 (s_rng r) _ _
                  (eq_trans (lookup_insert_ne _ _ _ _ (not_eq_sym Hne)) H1)
                  (lookup_insert_eq _ _ _) Er)
        as (r1 & [q2 c2] & F1 & F2 & Ho1 & Ho2 & Hf1 & Hf2).
      rewrite Ec. simpl. rewrite <- Hr in F2. rewrite F2. simpl.
      eexists r1, (_, _). split; [done|]. simpl in *.
      split; [reflexivity|]. split; [done|]. split; [by f_equal|]. by split.
Qed.

(** The constructor on the store returns whenever [__init__] does. *)
Lemma init_returns (st : store) cls level seed c :
  __init__ cls level seed = Return c ->
  exists o st', init st cls level seed = Return (o, st').
Proof.
  unfold __init__, init, new_RandomState, in_place. intros E.
  apply result_bind_Return in E as (s0 & -> & E).
  apply result_bind_Return in E as ([k s0'] & Ek & E).
  apply result_bind_Return in E as (s1 & Es1 & _). simpl.
  rewrite lookup_insert_eq, Ek. simpl in *. rewrite Es1. simpl. eauto.
Qed.

(** Calls in any order on two instances with generators of their own return
    whenever each instance, called alone on its own inputs, returns. *)
Lemma run_returns (o1 o2 : obj) steps :
  o_s_rng o1 <> o_s_rng o2 ->
  forall (st : store) s1 s2 r1 r2,
    st !! o_s_rng o1 = Some s1 -> st !! o_s_rng o2 = Some s2 ->
    calls (Make (o_cls o1) s1 (o_corruption_level o1)) (of_instance true steps)
    = Return r1 ->
    calls (Make (o_cls o2) s2 (o_corruption_level o2)) (of_instance false steps)
    = Return r2 ->
    exists outs st', run st o1 o2 steps = Return (outs, st').
Proof.
  intros Hne. induction steps as [|[who x] rest IH]; intros st s1 s2 r1 r2 H1 H2; simpl.
  - eauto.
  - destruct who; simpl; intros F1 F2.
    + apply result_bind_Return in F1 as ([out r] & Ec & F1).
      apply result_bind_Return in F1 as (rs & F1 & _). simpl in F1.
      rewrite (call_eta _ _ _ _ _ _ Ec) in F1.
      unfold call, in_place. rewrite H1, Ec. simpl.
      destruct (IH (<[o_s_rng o1 := s_rng r]> st) (s_rng r) s2 rs r2
                  (lookup_insert_eq _ _ _)
                  (eq_trans (lookup_insert_ne _ _ _ _ Hne) H2) F1 F2)
        as (outs & st' & ->). simpl. eauto.
    + apply result_bind_Return in F2 as ([out r] & Ec & F2).
      apply result_bind_Return in F2 as (rs & F2 & _). simpl in F2.
      rewrite (call_eta _ _ _ _ _ _ Ec) in F2.
      unfold call, in_place. rewrite H2, Ec. simpl.
      destruct (IH (<[o_s_rng o2 := s_rng r]> st) s1 (s_rng r) r1 rs
                  (eq_trans (lookup_insert_ne _ _ _ _ (not_eq_sym Hne)) H1)
                  (lookup_insert_eq _ _ _) F1 F2)
        as (outs & st' & ->). simpl. eauto.
Qed.

(** C2. Two corruptors of one class are built one after the other from one
    level and one seed, in any store of generators, and then called in any
    order. Each holds a generator of its own, seeded with the integer below
    2^30 drawn from a generator seeded with the given seed, whatever the store
    held. The calls return whenever an instance built from that class, level
    and seed returns when it is called alone on the inputs of each, and each
    of the two then returns what that instance returns, so the calls on one
    do not disturb the other: given equal sequences of inputs the two return
    equal sequences of outputs, and given sequences of inputs of equal shapes
    their generators end in the same state. *)
Theorem corruptor_deterministic (st : store) cls level seed o1 st1 o2 st2 :
  init st cls level seed = Return (o1, st1) ->
  init st1 cls level seed = Return (o2, st2) ->
  exists c,
    __init__ cls level seed = Return c /\
    (exists rng0 k rng1,
       RandomState_new seed = Return rng0 /\
       randint rng0 (2 ^ 30) = Return (k, rng1) /\
       RandomState_new k = Return (s_rng c)) /\
    o_s_rng o1 <> o_s_rng o2 /\
    st2 !! o_s_rng o1 = Some (s_rng c) /\ st2 !! o_s_rng o2 = Some (s_rng c) /\
    forall steps,
      (forall r1 r2,
         calls c (of_instance true steps) = Return r1 ->
         calls c (of_instance false steps) = Return r2 ->
         exists outs st', run st2 o1 o2 steps = Return (outs, st')) /\
      (forall outs st',
         run st2 o1 o2 steps = Return (outs, st') ->
         exists r1 r2,
           calls c (of_instance true steps) = Return r1 /\
           calls c (of_instance false steps) = Return r2 /\
           of_instance true outs = r1.1 /\ of_instance false outs = r2.1 /\
           (of_instance true steps = of_instance false steps ->
            of_instance true outs = of_instance false outs) /\
           (nd_shape <$> of_instance true steps
            = nd_shape <$> of_instance false steps ->
            st' !! o_s_rng o1 = st' !! o_s_rng o2)).
Proof.
  intros E1 E2.
  apply init_inv in E1 as (c & Ec & Hc1 & Hl1 & Hf1 & Hs1 & _).
  apply init_inv in E2 as (c' & Ec' & Hc2 & Hl2 & Hf2 & Hs2 & Hframe).
  assert (c' = c) as -> by congruence.
  assert (Hne : o_s_rng o1 <> o_s_rng o2) by (intros Heq; congruence).
  pose proof (Hframe _ _ Hs1) as Hs1'.
  assert (Hv : forall o, o_cls o = cls -> o_corruption_level o = level ->
                         Make (o_cls o) (s_rng c) (o_corruption_level o) = c).
  { intros o -> ->. unfold __init__ in Ec.
    apply result_bind_Return in Ec as (? & _ & Ec).
    apply result_bind_Return in Ec as (? & _ & Ec).
    apply result_bind_Return in Ec as (? & _ & Ec). by injection Ec as <-. }
  exists c. split; [done|]. split.
  { unfold __init__ in Ec.
    destruct (RandomState_new seed) as [rng0|] eqn:E0; [|discriminate]. simpl in Ec.
    destruct (randint rng0 (2 ^ 30)) as [[k rng1]|] eqn:Ek; [|discriminate]. simpl in Ec.
    destruct (RandomState_new k) as [s|] eqn:Es; [|discriminate]. simpl in Ec.
    injection Ec as <-. by exists rng0, k, rng1. }
  repeat (split; [done|]). intros steps. split.
  - intros r1 r2 F1 F2.
    apply (run_returns o1 o2 steps Hne st2 (s_rng c) (s_rng c) r1 r2 Hs1' Hs2).
    + by rewrite (Hv o1 Hc1 Hl1).
    + by rewrite (Hv o2 Hc2 Hl2).
  - intros outs st' Er.
    destruct (run_separate o1 o2 steps Hne st2 _ _ outs st' Hs1' Hs2 Er)
      as (r1 & r2 & F1 & F2 & Ho1 & Ho2 & Hg1 & Hg2).
    rewrite (Hv o1 Hc1 Hl1) in F1. rewrite (Hv o2 Hc2 Hl2) in F2.
    exists r1, r2. repeat (split; [done|]). split.
    + intros Hin. rewrite Hin in F1. congruence.
    + intros Hsh. rewrite Hg1, Hg2. f_equal. f_equal.
      exact (calls_state_by_shapes C c _ _ r1 r2 Hsh F1 F2).
Qed.
End HeapFacts.

Section HeapExamplesFacts.
Import Corruptors Heap CorruptorExamples HeapExamples.
#[local] Existing Instance Lcg.random.

(** Two binomial corruptors of level 1/2 built with seed 2001 in an empty
    store, and called out of turn on the same two inputs. *)
Lemma corruptor_deterministic_witness :
  init ∅ BinomialCorruptor (1 # 2) 2001 = Return (first, store1) /\
  init store1 BinomialCorruptor (1 # 2) 2001 = Return (second, store2) /\
  run store2 first second interleaved = Return (masked, store3) /\
  o_s_rng first <> o_s_rng second /\
  of_instance true masked = of_instance false masked /\
  store3 !! o_s_rng first = store3 !! o_s_rng second.
Proof.
  assert (E1 : init ∅ BinomialCorruptor (1 # 2) 2001 = Return (first, store1))
    by (vm_compute; reflexivity).
  assert (E2 : init store1 BinomialCorruptor (1 # 2) 2001 = Return (second, store2))
    by (vm_compute; reflexivity).
  assert (E3 : run store2 first second interleaved = Return (masked, store3))
    by (vm_compute; reflexivity).
  destruct (corruptor_deterministic lcg_contract _ _ _ _ _ _ _ _ E1 E2)
    as (c & _ & _ & Hne & _ & _ & Hrun).
  destruct (proj2 (Hrun interleaved) _ _ E3) as (r1 & r2 & _ & _ & _ & _ & Ho & Hs).
  split; [exact E1|]. split; [exact E2|]. split; [exact E3|].
  split; [exact Hne|]. split; [by apply Ho|by apply Hs].
Defined.
End HeapExamplesFacts.

(** * The accumulator and the rejection test, cell by cell *)

Section SceneFacts.
Context `{PerlinNoiseGenerator}.
Import SpritePlacer NumpyFacts Scene.

Lemma option_fmap_add (o : option Z) (c1 c2 : Z) :
  (fun v => v + c2) <$> ((fun v => v + c1) <$> o) = (fun v => v + (c1 + c2)) <$> o.
Proof. destruct o; simpl; f_equal; lia. Qed.

Lemma option_fmap_add_0 (o : option Z) : (fun v => v + 0) <$> o = o.
Proof. destruct o; simpl; f_equal; lia. Qed.

Lemma accumulate_coverage self col desc :
  canvas_shaped self col -> Forall (placement_ok self) desc ->
  exists col',
    accumulate self col desc = Return col' /\
    canvas_shaped self col' /\
    forall i j : nat,
      get col' i j = (fun v => v + coverage (h self) (w self) desc i j) <$> get col i j.
Proof.
  intros Hc Hd. revert col Hc.
  induction Hd as [|[[x y] sp] desc Hp _ IH]; intros col Hc; simpl.
  - exists col. split; [done|]. split; [done|]. intros i j. by rewrite option_fmap_add_0.
  - destruct Hp as (Hwf & Hx & _ & Hy & _). simpl in *.
    destruct (accumulate_sprite_cells self col x y sp Hwf Hc Hx Hy) as (col1 & -> & Hc1 & Hg1).
    simpl. destruct (IH col1 Hc1) as (col' & -> & Hc' & Hg').
    exists col'. split; [done|]. split; [done|]. intros i j.
    rewrite Hg', Hg1, option_fmap_add. done.
Qed.

(** X1. Accumulating a description adds to every cell of the accumulator the
    mask cells that cover it, on the rows below [h - 1] and the columns below
    [w - 1], and nothing on the last row and the last column. *)
Theorem accumulate_cells self col desc :
  canvas_shaped self col -> Forall (placement_ok self) desc ->
  exists col',
    accumulate self col desc = Return col' /\
    canvas_shaped self col' /\
    forall i j : nat,
      get col' i j = (fun v => v + coverage (h self) (w self) desc i j) <$> get col i j.
Proof. apply accumulate_coverage. Qed.
End SceneFacts.

Section VerdictFacts.
Context `{PerlinNoiseGenerator}.
Import SpritePlacer NumpyFacts Scene.

Lemma any_true {A} (p : A -> bool) (m : array2 A) :
  any p m = true <-> exists i j v, get m i j = Some v /\ p v = true.
Proof.
  unfold any, get. rewrite existsb_exists. split.
  - intros (r & Hr & Hp). apply existsb_exists in Hp as (v & Hv & Hp).
    apply list_elem_of_In, list_elem_of_lookup in Hr as [i Hi].
    apply list_elem_of_In, list_elem_of_lookup in Hv as [j Hj].
    exists i, j, v. by rewrite Hi.
  - intros (i & j & v & Hg & Hp).
    destruct (rows m !! i) as [r|] eqn:Hi; [|done]. simpl in Hg.
    exists r. split.
    + apply list_elem_of_In, list_elem_of_lookup. eauto.
    + apply existsb_exists. exists v. split; [|done].
      apply list_elem_of_In, list_elem_of_lookup. eauto.
Qed.

Lemma has_collision_overlap_value (col : array2 Z) :
  has_collision col = true <->
  exists i j v, get col i j = Some v /\ overlap_value v = true.
Proof.
  unfold has_collision, overlap_value. rewrite !orb_true_iff, !any_true. split.
  - intros [[(i & j & v & Hg & Hp)|(i & j & v & Hg & Hp)]|(i & j & v & Hg & Hp)];
      exists i, j, v; rewrite Hp; split; try done; by rewrite ?orb_true_r.
  - intros (i & j & v & Hg & Hp). rewrite !orb_true_iff in Hp.
    destruct Hp as [[Hp|Hp]|Hp]; [left; left|left; right|right]; by exists i, j, v.
Qed.

Lemma fill_get {A} (m : array2 A) (v : A) i j :
  get (fill m v) i j = (fun _ => v) <$> get m i j.
Proof.
  unfold get, fill; simpl. rewrite list_lookup_fmap.
  destruct (rows m !! i) as [r|]; simpl; [|done]. by rewrite list_lookup_fmap.
Qed.

Lemma canvas_get {A} self (m : array2 A) i j :
  canvas_shaped self m ->
  ((i < Z.to_nat (h self))%nat /\ (j < Z.to_nat (w self))%nat <-> is_Some (get m i j)).
Proof.
  intros [Hr Hs]. injection Hs as Hnr Hnc. split.
  - intros [Hi Hj]. apply get_inside; [done|lia|lia].
  - intros [v Hv].
    destruct (decide (i < nrows m)%nat) as [Hi|Hi];
      [|rewrite get_outside in Hv; [done|done|left; lia]].
    destruct (decide (j < ncols m)%nat) as [Hj|Hj];
      [|rewrite get_outside in Hv; [done|done|right; lia]].
    lia.
Qed.

(** Away from the last row and the last column the accumulator receives the
    sum of the masks; on the last row and on the last column, nothing. *)
Lemma coverage_mask_sum rows cols desc i j :
  Z.of_nat i < rows - 1 -> Z.of_nat j < cols - 1 ->
  coverage rows cols desc i j = mask_sum desc i j.
Proof.
  intros Hi Hj. induction desc as [|pl rest IH]; simpl; [done|].
  rewrite IH. unfold contribution.
  destruct (Z.ltb_spec (Z.of_nat i) (rows - 1)); [|lia].
  destruct (Z.ltb_spec (Z.of_nat j) (cols - 1)); [|lia]. done.
Qed.

Lemma coverage_last rows cols desc i j :
  rows - 1 <= Z.of_nat i \/ cols - 1 <= Z.of_nat j ->
  coverage rows cols desc i j = 0.
Proof.
  intros Hij. induction desc as [|pl rest IH]; simpl; [done|].
  rewrite IH. unfold contribution.
  destruct (Z.ltb_spec (Z.of_nat i) (rows - 1)); simpl; [|done].
  destruct (Z.ltb_spec (Z.of_nat j) (cols - 1)); simpl; [lia|done].
Qed.

(** A collision the test sees is an overlap of the masks. *)
Lemma collision_detected_masks_overlap self desc :
  collision_detected self desc -> masks_overlap self desc.
Proof.
  intros (i & j & Hi & Hj & Ho). exists i, j. split; [lia|]. split; [lia|done].
Qed.

(** The accumulator of a trial on a proposal the source contract allows. *)
Lemma trial_accumulator self fr (p : proposal) :
  frame_ok self fr -> Forall (placement_ok self) p.1 ->
  exists col',
    accumulate self (fill (collider fr) 0) p.1 = Return col' /\
    canvas_shaped self col' /\
    (has_collision col' = true <-> collision_detected self p.1).
Proof.
  intros [Hc _] Hp.
  destruct (accumulate_coverage self (fill (collider fr) 0) p.1) as (col' & E & Hc' & Hg);
    [by apply fill_canvas_shaped|done|].
  exists col'. split; [done|]. split; [done|].
  rewrite has_collision_overlap_value. unfold collision_detected. split.
  - intros (i & j & v & Hv & Ho). exists i, j.
    rewrite Hg, fill_get in Hv.
    destruct (get (collider fr) i j); simpl in Hv; [|done].
    injection Hv as <-. rewrite Z.add_0_l in Ho.
    destruct (Z.lt_ge_cases (Z.of_nat i) (h self - 1)) as [Hi|Hi];
      [|rewrite coverage_last in Ho by (by left); done].
    destruct (Z.lt_ge_cases (Z.of_nat j) (w self - 1)) as [Hj|Hj];
      [|rewrite coverage_last in Ho by (by right); done].
    split; [done|]. split; [done|]. by rewrite coverage_mask_sum in Ho.
  - intros (i & j & Hi & Hj & Ho).
    assert (Hi' : (i < Z.to_nat (h self))%nat) by lia.
    assert (Hj' : (j < Z.to_nat (w self))%nat) by lia.
    destruct (proj1 (canvas_get self (collider fr) i j Hc) (conj Hi' Hj')) as [v0 Hv0].
    exists i, j, (mask_sum p.1 i j). split; [|done].
    rewrite Hg, fill_get, Hv0. simpl. by rewrite Z.add_0_l, coverage_mask_sum.
Qed.

Lemma trial_decides self fr (p : proposal) :
  0 <= h self -> 0 <= w self ->
  frame_ok self fr -> proposal_ok self fr p ->
  exists v self' fr',
    trial self fr p = Return (v, self', fr') /\
    frame_ok self' fr' /\ length (targets fr') = length (targets fr) /\
    (v = Rejected <-> collision_detected self p.1).
Proof.
  intros Hh Hw Hf [Hp Ht].
  destruct (trial_accumulator self fr p Hf Hp) as (col' & E & Hc' & Hcol).
  destruct Hf as [Hc Hd].
  unfold trial. destruct p as [desc tg]. simpl in *. rewrite E. simpl.
  destruct (has_collision col') eqn:Hhc.
  - eexists _, _, _. split; [reflexivity|]. split; [by split|]. split; [done|].
    split; [intros _; by apply Hcol|done].
  - destruct (paint_returns self (data fr) desc Hh Hw Hd Hp) as (dt' & -> & Hd'). simpl.
    destruct (assign_targets_returns self (targets fr) tg Ht) as (t' & -> & Hl). simpl.
    eexists _, _, _. split; [reflexivity|]. split; [by split|]. split; [done|].
    split; [done|]. intros Hco. apply Hcol in Hco. congruence.
Qed.

(** X2. On a proposal the source contract allows, the trial returns, and it
    rejects exactly when the masks of the proposal sum to a value above 255,
    or to 2, or to 3, on some cell above the last row and left of the last
    column of the canvas. An overlap that lies in the last row or in the
    last column only is not seen (C1), and what the accumulator held before
    the trial plays no part. *)
Theorem trial_verdict self fr (p : proposal) :
  0 <= h self -> 0 <= w self ->
  frame_ok self fr -> proposal_ok self fr p ->
  exists v self' fr',
    trial self fr p = Return (v, self', fr') /\
    frame_ok self' fr' /\ length (targets fr') = length (targets fr) /\
    (v = Rejected <-> collision_detected self p.1).
Proof. apply trial_decides. Qed.
End VerdictFacts.

Section FirstFit.
Context `{PerlinNoiseGenerator}.
Import SpritePlacer NumpyFacts Scene.

Lemma proposal_ok_transfer self self1 fr fr1 (p : proposal) :
  h self1 = h self -> w self1 = w self ->
  length (targets fr1) = length (targets fr) ->
  proposal_ok self fr p -> proposal_ok self1 fr1 p.
Proof.
  intros Hh Hw Hl [Hp Ht]. split; [|by rewrite Hl].
  eapply Forall_impl; [exact Hp|]. intros pl. unfold placement_ok. by rewrite Hh, Hw.
Qed.

Lemma collision_detected_transfer self self1 desc :
  h self1 = h self -> w self1 = w self -> collision_detected self desc -> collision_detected self1 desc.
Proof. intros Hh Hw. unfold collision_detected. by rewrite Hh, Hw. Qed.

Lemma set_n_rejections_twice self n m :
  set_n_rejections (set_n_rejections self n) m = set_n_rejections self m.
Proof. by destruct self. Qed.

(** A rejected trial, as the loop sees it. *)
Lemma trial_rejects self fr (p : proposal) :
  0 <= h self -> 0 <= w self ->
  frame_ok self fr -> proposal_ok self fr p -> collision_detected self p.1 ->
  exists fr',
    trial self fr p = Return (Rejected, set_n_rejections self (n_rejections self + 1), fr') /\
    frame_ok self fr' /\ targets fr' = targets fr /\
    data fr' = data fr /\ ntrials fr' = ntrials fr + 1.
Proof.
  intros Hh Hw Hf Hp Hc.
  destruct (trial_decides self fr p Hh Hw Hf Hp) as (v & self' & fr' & E & Hf' & Hl & Hv).
  apply Hv in Hc as ->. pose proof (trial_inv _ _ _ _ _ _ E) as (_ & Hn & _ & -> & Hd & Ht).
  exists fr'. split; [done|]. split; [exact Hf'|]. by split.
Qed.

(** An accepted trial, as the loop sees it. *)
Lemma trial_accepts self fr (p : proposal) :
  0 <= h self -> 0 <= w self ->
  frame_ok self fr -> proposal_ok self fr p -> ~ collision_detected self p.1 ->
  exists fr',
    trial self fr p = Return (Accepted, set_n_successes self (n_successes self + 1), fr') /\
    paint (data fr) p.1 = Return (data fr') /\
    assign_targets self (targets fr) p.2 = Return (targets fr') /\
    ntrials fr' = ntrials fr + 1.
Proof.
  intros Hh Hw Hf Hp Hc.
  destruct (trial_decides self fr p Hh Hw Hf Hp) as (v & self' & fr' & E & Hf' & Hl & Hv).
  destruct v; [exfalso; by apply Hc, Hv|].
  pose proof (trial_inv _ _ _ _ _ _ E) as (_ & Hn & _ & -> & Hd & Ht).
  exists fr'. by split.
Qed.

Lemma mode_b_takes_first self fr rejected (p : proposal) rest :
  0 <= h self -> 0 <= w self -> frame_ok self fr ->
  Forall (proposal_ok self fr) rejected -> proposal_ok self fr p ->
  Forall (fun q : proposal => collision_detected self q.1) rejected -> ~ collision_detected self p.1 ->
  exists fr',
    mode_b self fr (rejected ++ p :: rest)
    = (set_n_successes
         (set_n_rejections self (n_rejections self + Z.of_nat (length rejected)))
         (n_successes self + 1),
       Return (fr', rest)) /\
    paint (data fr) p.1 = Return (data fr') /\
    assign_targets self (targets fr) p.2 = Return (targets fr') /\
    ntrials fr' = ntrials fr + Z.of_nat (length rejected) + 1.
Proof.
  intros Hh Hw Hf Hps Hp Hcs Hc. revert self fr Hh Hw Hf Hps Hp Hcs Hc.
  induction rejected as [|q qs IH]; intros self fr Hh Hw Hf Hps Hp Hcs Hc; simpl.
  - destruct (trial_accepts self fr p Hh Hw Hf Hp Hc) as (fr' & -> & Hpaint & Ht & Hn).
    exists fr'. split; [|split; [done|split; [done|lia]]].
    f_equal. destruct self; unfold set_n_successes, set_n_rejections; simpl.
    f_equal; lia.
  - apply Forall_cons in Hps as [Hq Hps]. apply Forall_cons in Hcs as [Hcq Hcs].
    destruct (trial_rejects self fr q Hh Hw Hf Hq Hcq) as (fr1 & -> & Hf1 & Hl & Hd & Hn).
    set (self1 := set_n_rejections self (n_rejections self + 1)).
    assert (Hps1 : Forall (proposal_ok self1 fr1) qs).
    { eapply Forall_impl; [exact Hps|]. intros r.
      apply (proposal_ok_transfer self self1 fr fr1); by rewrite ?Hl. }
    assert (Hp1 : proposal_ok self1 fr1 p)
      by (apply (proposal_ok_transfer self self1 fr fr1); by rewrite ?Hl).
    assert (Hcs1 : Forall (fun q : proposal => collision_detected self1 q.1) qs).
    { eapply Forall_impl; [exact Hcs|]. intros r. by apply collision_detected_transfer. }
    assert (Hc1 : ~ collision_detected self1 p.1).
    { intros Hc1. apply Hc. by apply (collision_detected_transfer self1). }
    destruct (IH self1 fr1 Hh Hw Hf1 Hps1 Hp1 Hcs1 Hc1) as (fr' & -> & Hpaint & Ht & Hn').
    exists fr'. rewrite <- Hd, <- Hl. split; [|split; [done|split; [done|lia]]].
    f_equal. destruct self; unfold self1, set_n_successes, set_n_rejections; simpl.
    f_equal; lia.
Qed.

(** X4. When the test sees a collision in every proposal the source has
    left (an overlap on a cell above the last row and left of the last
    column), Mode B yields nothing: each proposal is counted as a rejection,
    [n_successes] stays as it was, and the loop ends on the exhausted
    source. *)
Theorem mode_b_all_rejected self fr pending :
  0 <= h self -> 0 <= w self -> frame_ok self fr ->
  Forall (proposal_ok self fr) pending ->
  Forall (fun q : proposal => collision_detected self q.1) pending ->
  mode_b self fr pending
  = (set_n_rejections self (n_rejections self + Z.of_nat (length pending)),
     Raise StopIteration).
Proof.
  intros Hh Hw Hf Hps Hcs. revert self fr Hh Hw Hf Hps Hcs.
  induction pending as [|q qs IH]; intros self fr Hh Hw Hf Hps Hcs; simpl.
  - f_equal. destruct self; unfold set_n_rejections; simpl. f_equal; lia.
  - apply Forall_cons in Hps as [Hq Hps]. apply Forall_cons in Hcs as [Hcq Hcs].
    destruct (trial_rejects self fr q Hh Hw Hf Hq Hcq) as (fr1 & -> & Hf1 & Hl & Hd & Hn).
    set (self1 := set_n_rejections self (n_rejections self + 1)).
    assert (Hps1 : Forall (proposal_ok self1 fr1) qs).
    { eapply Forall_impl; [exact Hps|]. intros r.
      apply (proposal_ok_transfer self self1 fr fr1); by rewrite ?Hl. }
    assert (Hcs1 : Forall (fun q : proposal => collision_detected self1 q.1) qs).
    { eapply Forall_impl; [exact Hcs|]. intros r. by apply collision_detected_transfer. }
    rewrite (IH self1 fr1 Hh Hw Hf1 Hps1 Hcs1).
    f_equal. destruct self; unfold self1, set_n_rejections; simpl. f_equal; lia.
Qed.

(** X3. Mode B takes the first proposal in which the test sees no
    collision, the test looking at the cells above the last row and left of
    the last column only: the proposals before it, in each of which the test
    sees one, are each counted as a rejection and leave the canvas as it
    was, the accepted one is painted and counted as a success, its target is
    stored in the target vector, and the proposals after it stay with the
    source. *)
Theorem mode_b_first_fit self fr rejected (p : proposal) rest :
  0 <= h self -> 0 <= w self -> frame_ok self fr ->
  Forall (proposal_ok self fr) rejected -> proposal_ok self fr p ->
  Forall (fun q : proposal => collision_detected self q.1) rejected -> ~ collision_detected self p.1 ->
  exists fr',
    mode_b self fr (rejected ++ p :: rest)
    = (set_n_successes
         (set_n_rejections self (n_rejections self + Z.of_nat (length rejected)))
         (n_successes self + 1),
       Return (fr', rest)) /\
    paint (data fr) p.1 = Return (data fr') /\
    assign_targets self (targets fr) p.2 = Return (targets fr') /\
    ntrials fr' = ntrials fr + Z.of_nat (length rejected) + 1.
Proof. apply mode_b_takes_first. Qed.
End FirstFit.

Section OrderFacts.
Context `{PerlinNoiseGenerator}.
Import SpritePlacer NumpyFacts Scene.

(** Two arrays of one shape with the same cells are equal. *)
Lemma array2_ext {A} (m m' : array2 A) :
  shape m = shape m' -> rect m -> rect m' ->
  (forall i j, get m i j = get m' i j) -> m = m'.
Proof.
  destruct m as [nc rs], m' as [nc' rs']. unfold shape, nrows, rect, get; simpl.
  intros [= Hl <-] Hr Hr' Hg. f_equal. apply list_eq. intros i.
  destruct (rs !! i) as [r|] eqn:Er, (rs' !! i) as [r'|] eqn:Er'.
  - f_equal. apply list_eq. intros j. specialize (Hg i j). by rewrite Er, Er' in Hg.
  - apply lookup_lt_Some in Er. apply lookup_ge_None in Er'. lia.
  - apply lookup_ge_None in Er. apply lookup_lt_Some in Er'. lia.
  - done.
Qed.

Lemma coverage_Permutation rows cols desc desc' i j :
  desc ≡ₚ desc' -> coverage rows cols desc i j = coverage rows cols desc' i j.
Proof. induction 1; simpl; lia. Qed.

(** X5. The accumulator does not depend on the order in which the
    description lists its sprites. *)
Theorem accumulate_Permutation self col desc desc' :
  canvas_shaped self col -> Forall (placement_ok self) desc ->
  desc ≡ₚ desc' ->
  accumulate self col desc = accumulate self col desc'.
Proof.
  intros Hc Hd Hp.
  assert (Hd' : Forall (placement_ok self) desc') by (by rewrite <- Hp).
  destruct (accumulate_coverage self col desc Hc Hd) as (c1 & -> & [Hr1 Hs1] & Hg1).
  destruct (accumulate_coverage self col desc' Hc Hd') as (c2 & -> & [Hr2 Hs2] & Hg2).
  f_equal. apply array2_ext; [congruence|done|done|].
  intros i j. rewrite Hg1, Hg2. by rewrite (coverage_Permutation _ _ _ _ i j Hp).
Qed.
End OrderFacts.

Section PaintFacts.
Context `{PerlinNoiseGenerator}.
Import SpritePlacer NumpyFacts Scene.

(** Along one axis of a patch that lies on the canvas: the bounds of the
    slice, the test the assignment makes on a canvas index, and the patch
    index it reads. *)
Lemma axis_patch_index (n : nat) (pos size : Z) (i : nat) :
  0 <= size -> 0 <= pos -> pos + size <= Z.of_nat n ->
  slice_index n pos = Z.to_nat pos /\
  slice_index n (pos + size) = Z.to_nat (pos + size) /\
  in_range (Z.to_nat pos) (Z.to_nat (pos + size)) i
  = (pos <=? Z.of_nat i) && (Z.of_nat i <? pos + size) /\
  (in_range (Z.to_nat pos) (Z.to_nat (pos + size)) i = true ->
   (i - Z.to_nat pos < Z.to_nat size)%nat /\
   (i - Z.to_nat pos)%nat = Z.to_nat (Z.of_nat i - pos)).
Proof.
  intros Hs Hp Hn. rewrite !slice_index_nonneg by lia.
  split; [lia|]. split; [lia|]. unfold in_range.
  destruct (Nat.leb_spec (Z.to_nat pos) i); destruct (Nat.ltb_spec i (Z.to_nat (pos + size)));
    destruct (Z.leb_spec pos (Z.of_nat i)); destruct (Z.ltb_spec (Z.of_nat i) (pos + size));
    simpl; split; try lia; try done.
Qed.

Lemma paint_sprite_cells self (dt : array2 pixel) pl :
  0 <= h self -> 0 <= w self ->
  canvas_shaped self dt -> placement_ok self pl ->
  exists dt',
    assign_slice dt pl.1.2 (pl.1.2 + Sprite.h pl.2) pl.1.1 (pl.1.1 + Sprite.w pl.2)
      (Sprite.patch pl.2) = Return dt' /\
    canvas_shaped self dt' /\
    forall i j : nat,
      get dt' i j = (fun v => default v (patch_at pl i j)) <$> get dt i j.
Proof.
  intros Hh Hw Hc Hp.
  destruct (paint_sprite_returns self dt pl Hh Hw Hc Hp) as (dt' & E & Hc').
  exists dt'. split; [done|]. split; [done|]. intros i j.
  unfold assign_slice in E. rewrite (update_slice_get _ _ _ _ _ _ _ _ i j E).
  destruct Hc as [Hr Hs]. injection Hs as Hnr Hnc.
  destruct Hp as (Hwf & Hx & Hxw & Hy & Hyh).
  destruct Hwf as [Hsh Hsw _ _ _ _ _ _ Spatch _]. injection Spatch as Pnr Pnc.
  destruct (axis_patch_index (nrows dt) pl.1.2 (Sprite.h pl.2) i) as (-> & -> & Ei & Hi);
    [lia..|].
  destruct (axis_patch_index (ncols dt) pl.1.1 (Sprite.w pl.2) j) as (-> & -> & Ej & Hj);
    [lia..|].
  unfold patch_at. rewrite <- !andb_assoc, (andb_assoc (pl.1.2 <=? _)), <- Ei, <- Ej.
  destruct (get dt i j) as [v|]; simpl; [|done]. f_equal.
  destruct (in_range _ _ i); simpl; [|done].
  destruct (in_range _ _ j); simpl; [|done].
  destruct (Hi eq_refl) as [Hi1 Hi2]. destruct (Hj eq_refl) as [Hj1 Hj2].
  rewrite !bidx_inside by (by rewrite ?Pnr, ?Pnc).
  rewrite Hi2, Hj2. by destruct (get _ _ _).
Qed.

Lemma option_fmap_compose {A} (f g : A -> A) (o : option A) :
  g <$> (f <$> o) = (fun v => g (f v)) <$> o.
Proof. by destruct o. Qed.

(** X6. Painting a description gives every cell of the canvas the patch cell
    of the last sprite of the description whose patch covers it, and leaves
    the cells that no patch covers as they were. *)
Theorem paint_cells self (dt : array2 pixel) desc :
  0 <= h self -> 0 <= w self ->
  canvas_shaped self dt -> Forall (placement_ok self) desc ->
  exists dt',
    paint dt desc = Return dt' /\
    canvas_shaped self dt' /\
    forall i j : nat, get dt' i j = painted desc i j <$> get dt i j.
Proof.
  intros Hh Hw Hc Hd. revert dt Hc.
  induction Hd as [|[[x y] sp] desc Hp _ IH]; intros dt Hc; simpl.
  - exists dt. split; [done|]. split; [done|]. intros i j. by destruct (get dt i j).
  - destruct (paint_sprite_cells self dt _ Hh Hw Hc Hp) as (dt1 & E & Hc1 & Hg1).
    simpl in E. rewrite E. simpl.
    destruct (IH dt1 Hc1) as (dt' & -> & Hc' & Hg').
    exists dt'. split; [done|]. split; [done|]. intros i j.
    rewrite Hg', Hg1. apply option_fmap_compose.
Qed.
End PaintFacts.

Section PaintOrder.
Context `{PerlinNoiseGenerator}.
Import SpritePlacer NumpyFacts Scene.

Lemma painted_uncovered desc i j v :
  Forall (fun pl => patch_at pl i j = None) desc -> painted desc i j v = v.
Proof.
  intros Hd. revert v. induction Hd as [|pl desc Hp _ IH]; intros v; simpl; [done|].
  by rewrite Hp, IH.
Qed.

Lemma painted_last before pl after i j v p :
  patch_at pl i j = Some p ->
  Forall (fun pl' => patch_at pl' i j = None) after ->
  painted (before ++ pl :: after) i j v = p.
Proof.
  intros Hp Ha. revert v. induction before as [|q qs IH]; intros v; simpl.
  - rewrite Hp. simpl. by apply painted_uncovered.
  - apply IH.
Qed.

(** X6. Painting is last writer wins. On a canvas painted with a description
    the source contract allows, a cell that no patch covers is as it was, and
    a cell covered by the patch of a sprite, and by no patch of a later
    sprite, holds that patch's cell, whatever the earlier sprites painted
    there. *)
Theorem paint_last_writer_wins self (dt : array2 pixel) desc :
  0 <= h self -> 0 <= w self ->
  canvas_shaped self dt -> Forall (placement_ok self) desc ->
  exists dt',
    paint dt desc = Return dt' /\
    canvas_shaped self dt' /\
    forall i j : nat,
      (Forall (fun pl => patch_at pl i j = None) desc -> get dt' i j = get dt i j) /\
      (forall before pl after p,
         desc = before ++ pl :: after ->
         patch_at pl i j = Some p ->
         Forall (fun pl' => patch_at pl' i j = None) after ->
         (i < Z.to_nat (h self))%nat -> (j < Z.to_nat (w self))%nat ->
         get dt' i j = Some p).
Proof.
  intros Hh Hw Hc Hd.
  destruct (paint_cells self dt desc Hh Hw Hc Hd) as (dt' & E & Hc' & Hg).
  exists dt'. split; [done|]. split; [done|]. intros i j. split.
  - intros Hn. rewrite Hg. destruct (get dt i j) as [v|]; simpl; [|done].
    by rewrite painted_uncovered.
  - intros before pl after p -> Hp Ha Hi Hj. rewrite Hg.
    destruct (proj1 (canvas_get self dt i j Hc) (conj Hi Hj)) as [v ->]. simpl.
    by rewrite (painted_last _ _ _ _ _ _ p).
Qed.
End PaintOrder.

Section SampleFacts.
Context `{PerlinNoiseGenerator}.
Import SpritePlacer NumpyFacts Scene.

(** X7. Without the collision check a step of the generator never counts a
    rejection; when it yields it has counted one success and taken exactly
    one proposal from the source. *)
Theorem mode_a_never_rejects self it :
  collision_check self = false ->
  n_rejections (next self it).1 = n_rejections self /\
  forall self' smp it',
    next self it = (self', Return (smp, it')) ->
    n_successes self' = n_successes self + 1 /\
    exists p, it_gen it = p :: it_gen it' /\ it_collider it' = it_collider it.
Proof.
  intros Hcc. unfold next.
  pose proof (new_canvas_counters self) as (Hs & Hr & Hc).
  destruct (new_canvas self) as [self1 [data0|e]]; simpl in *; [|by split].
  destruct (new_targets self1) as [t0|e]; simpl; [|by split].
  rewrite Hc, Hcc. simpl. unfold mode_a.
  destruct (it_gen it) as [|[desc tg] ps]; simpl; [by split|].
  destruct (paint data0 desc ≫= _) as [[d' t']|e]; simpl; [|by split].
  split; [done|]. intros self' smp it'.
  destruct (reshape1 d' _); simpl; [|discriminate].
  intros [= <- <- <-]. simpl. split; [lia|]. by exists (desc, tg).
Qed.

Lemma paint_shape (dt : array2 pixel) desc dt' :
  paint dt desc = Return dt' -> shape dt' = shape dt /\ (rect dt -> rect dt').
Proof.
  revert dt. induction desc as [|[[x y] sp] desc IH]; intros dt; simpl.
  - by intros [= <-].
  - intros E. apply result_bind_Return in E as (dt1 & E1 & E).
    apply update_slice_shape in E1 as [Hs1 Hr1]. apply IH in E as [Hs Hr].
    split; [congruence|auto].
Qed.

Lemma assign_targets_length (self : t) (ts : list Q) (tg : target) ts' :
  assign_targets self ts tg = Return ts' -> length ts' = length ts.
Proof.
  unfold assign_targets. destruct (Nat.eqb_spec (length tg) (length ts)).
  - intros [= <-]. by rewrite length_fmap.
  - destruct tg as [|v [|? ?]]; try discriminate. intros [= <-]. apply length_replicate.
Qed.

(** What the target vector holds after [targets[:] = target]: the values of
    the target, each converted to [out_dtype], one value being repeated over
    the whole vector. *)
Lemma assign_targets_values (self : t) (ts : list Q) (tg : target) ts' :
  assign_targets self ts tg = Return ts' ->
  (length tg = length ts -> ts' = Dtype.cast (out_dtype self) <$> tg) /\
  (forall v, tg = [v] -> ts' = replicate (length ts) (Dtype.cast (out_dtype self) v)).
Proof.
  unfold assign_targets. destruct (Nat.eqb_spec (length tg) (length ts)) as [He|He].
  - intros [= <-]. split; [done|]. intros v ->. simpl in He. by rewrite <- He.
  - destruct tg as [|v [|? ?]]; try discriminate. intros [= <-].
    split; [done|]. by intros ? [= <-].
Qed.

Lemma mode_b_targets self fr pending self' fr' rest :
  mode_b self fr pending = (self', Return (fr', rest)) ->
  length (targets fr') = length (targets fr).
Proof.
  revert self fr. induction pending as [|p ps IH]; intros self fr; simpl; [discriminate|].
  destruct (trial self fr p) as [[[v self1] fr1]|e] eqn:Ht; [|discriminate].
  apply trial_inv in Ht as (_ & _ & Hv). destruct v.
  - destruct Hv as (_ & _ & _ & Ht). intros Hm. apply IH in Hm. congruence.
  - destruct Hv as (_ & _ & _ & Ht). intros [= <- <- <-].
    by apply assign_targets_length in Ht.
Qed.

Lemma concat_rect_length {A} (m : array2 A) :
  rect m -> length (concat (rows m)) = (nrows m * ncols m)%nat.
Proof.
  unfold rect, nrows. generalize (ncols m). intros n Hr.
  induction Hr as [|r rs Hl _ IH]; simpl; [done|]. rewrite length_app, IH, Hl. lia.
Qed.

(** X8. A sample the generator yields on a rectangular background is a
    vector of [nin] cells and a target vector of [nout] cells. *)
Theorem sample_lengths self it self' smp it' :
  (forall p, perlin_gen self = Some p -> rect (get_background_noise p).1) ->
  next self it = (self', Return (smp, it')) ->
  Z.of_nat (length smp.1) = nin self /\ length smp.2 = Z.to_nat (nout self).
Proof.
  intros Hfield. unfold next.
  assert (Hcv : forall d0, (new_canvas self).2 = Return d0 -> rect d0).
  { unfold new_canvas. destruct (enable_perlin self).
    - destruct (perlin_gen self) as [p|]; [|done].
      specialize (Hfield p eq_refl). destruct (get_background_noise p).
      simpl in *. by intros d0 [= <-].
    - unfold full. destruct (_ || _); [done|]. simpl. intros d0 [= <-].
      unfold rect; simpl. apply Forall_replicate. apply length_replicate. }
  assert (Hat : nin (new_canvas self).1 = nin self /\ nout (new_canvas self).1 = nout self).
  { unfold new_canvas. destruct (enable_perlin self); [|done].
    destruct (perlin_gen self) as [p|]; [|done]. by destruct (get_background_noise p). }
  destruct (new_canvas self) as [self1 [data0|e]]; simpl in *; [|discriminate].
  specialize (Hcv data0 eq_refl). destruct Hat as [Hnin Hnout].
  unfold new_targets. destruct (Z.ltb_spec (nout self1) 0); simpl; [discriminate|].
  destruct (collision_check self1); simpl.
  - destruct (it_collider it) as [c0|]; [|discriminate].
    destruct (mode_b _ _ _) as [self2 [[fr rest]|e]] eqn:Hm; [|discriminate].
    pose proof (mode_b_targets _ _ _ _ _ _ Hm) as Hlt.
    apply mode_b_returns in Hm as (rej & q & _ & -> & _ & Hpaint). simpl in *.
    apply paint_shape in Hpaint as [_ Hr]. specialize (Hr Hcv).
    unfold reshape1. destruct (Z.eqb_spec (nin self1) (Z.of_nat (nrows (data fr) * ncols (data fr))));
      simpl; [|discriminate].
    intros [= <- <- <-]. simpl. rewrite concat_rect_length by done.
    rewrite Hlt, length_replicate. split; congruence.
  - unfold mode_a. destruct (it_gen it) as [|[desc tg] ps]; [discriminate|].
    destruct (paint data0 desc) as [d'|] eqn:Hp; simpl; [|discriminate].
    destruct (assign_targets _ _ tg) as [t'|] eqn:Ht; simpl; [|discriminate].
    apply paint_shape in Hp as [_ Hr]. specialize (Hr Hcv).
    apply assign_targets_length in Ht. rewrite length_replicate in Ht.
    unfold reshape1. destruct (Z.eqb_spec (nin self1) (Z.of_nat (nrows d' * ncols d')));
      simpl; [|discriminate].
    intros [= <- <- <-]. simpl. rewrite concat_rect_length by done. split; congruence.
Qed.
End SampleFacts.

Section Warnings.
Context `{PerlinNoiseGenerator}.
Import SpritePlacer NumpyFacts Scene.

Lemma trial_stderr self fr p v self' fr' :
  trial self fr p = Return (v, self', fr') ->
  n_successes self' = match v with
                      | Rejected => n_successes self
                      | Accepted => n_successes self + 1
                      end /\
  stderr fr' =
    stderr fr ++
    (if n_successes self =? 0
     then filter (fun n => n <> 0 /\ n mod 1000 = 0) [ntrials fr] else []).
Proof.
  intros Ht.
  assert (Hs : stderr fr' =
    if (n_successes self =? 0) && negb (ntrials fr =? 0) && (ntrials fr mod 1000 =? 0)
    then stderr fr ++ [ntrials fr] else stderr fr).
  { unfold trial in Ht. destruct p as [desc tg].
    apply result_bind_Return in Ht as (col' & _ & Ht).
    destruct (has_collision col'); [by injection Ht as _ _ <-|].
    apply result_bind_Return in Ht as (d' & _ & Ht).
    apply result_bind_Return in Ht as (t' & _ & Ht). by injection Ht as _ _ <-. }
  split.
  { apply trial_inv in Ht as (_ & _ & Hv). destruct v; by destruct Hv as (_ & -> & _). }
  rewrite Hs. destruct (n_successes self =? 0); simpl; [|by rewrite app_nil_r].
  rewrite filter_cons, filter_nil.
  destruct (Z.eqb_spec (ntrials fr) 0) as [E0|E0]; simpl.
  - rewrite decide_False by tauto. by rewrite app_nil_r.
  - destruct (Z.eqb_spec (ntrials fr mod 1000) 0) as [E1|E1].
    + by rewrite decide_True.
    + rewrite decide_False by tauto. by rewrite app_nil_r.
Qed.

(** X10. The warnings of one sample. While no sample has been produced yet,
    the loop of Mode B writes one warning before each trial whose number of
    earlier trials is a positive multiple of 1000, and none otherwise; once a
    sample has been produced it writes none. *)
Theorem mode_b_warnings self fr pending self' fr' rest :
  mode_b self fr pending = (self', Return (fr', rest)) ->
  stderr fr' =
    stderr fr ++
    (if n_successes self =? 0
     then filter (fun n => n <> 0 /\ n mod 1000 = 0)
            (seqZ (ntrials fr) (ntrials fr' - ntrials fr))
     else []).
Proof.
  revert self fr. induction pending as [|p ps IH]; intros self fr; simpl; [discriminate|].
  destruct (trial self fr p) as [[[v self1] fr1]|e] eqn:Ht; [|discriminate].
  pose proof (trial_stderr _ _ _ _ _ _ Ht) as [Hsucc Hs].
  apply trial_inv in Ht as (_ & Hn & _). destruct v.
  - intros Hm. pose proof (mode_b_returns _ _ _ _ _ _ Hm) as (rej & q & _ & _ & Hn' & _).
    apply IH in Hm. rewrite Hm, Hs, Hsucc, <- app_assoc. f_equal.
    destruct (n_successes self =? 0); [|done].
    rewrite <- filter_app. f_equal.
    rewrite (seqZ_cons (ntrials fr)) by lia. simpl. f_equal. f_equal; lia.
  - intros [= <- <- <-]. rewrite Hs. f_equal.
    replace (ntrials fr1 - ntrials fr) with 1 by lia. done.
Qed.
End Warnings.

Section FirstSample.
Context `{PerlinNoiseGenerator}.
Import SpritePlacer NumpyFacts Scene.

Lemma full_canvas_shaped {A} self (v : A) :
  0 <= h self -> 0 <= w self ->
  exists m, full (h self) (w self) v = Return m /\ canvas_shaped self m /\
            forall i j, (i < Z.to_nat (h self))%nat -> (j < Z.to_nat (w self))%nat ->
                        get m i j = Some v.
Proof.
  intros Hh Hw. unfold full.
  destruct (Z.ltb_spec (h self) 0); [lia|]. destruct (Z.ltb_spec (w self) 0); [lia|]. simpl.
  eexists. split; [done|]. split; [split|].
  - unfold rect; simpl. apply Forall_replicate. apply length_replicate.
  - unfold shape, nrows; simpl. by rewrite length_replicate.
  - intros i j Hi Hj. unfold get; simpl.
    rewrite lookup_replicate_2 by done. simpl. by rewrite lookup_replicate_2.
Qed.

(** X9. The first sample of a freshly built placer with the collision check
    and no background: the proposals at the head of the source in which the
    test sees a collision (an overlap on a cell above the last row and left
    of the last column) are counted as rejections, the first proposal in
    which it sees none is painted over a zero canvas and yielded with its
    target converted to [out_dtype] (one value being repeated over the whole
    vector), and the source is left with the proposals after it. *)
Theorem first_sample_mode_b g self rejected (p : proposal) rest :
  __init__ g true false = Return self ->
  0 <= Source.h g -> 0 <= Source.w g -> 0 <= Source.nout g ->
  Source.pending g = rejected ++ p :: rest ->
  Forall (contract_ok self) rejected -> contract_ok self p ->
  Forall (fun q : proposal => collision_detected self q.1) rejected -> ~ collision_detected self p.1 ->
  exists it0 self' canvas tgs it',
    iter_start self = Return it0 /\
    next self it0 = (self', Return ((concat (rows canvas), tgs), it')) /\
    n_rejections self' = Z.of_nat (length rejected) /\
    n_successes self' = 1 /\
    it_gen it' = rest /\
    canvas_shaped self canvas /\
    (forall i j : nat,
       (i < Z.to_nat (h self))%nat -> (j < Z.to_nat (w self))%nat ->
       get canvas i j = Some (painted p.1 i j 0%Q)) /\
    (length p.2 = Z.to_nat (nout self) ->
     tgs = Dtype.cast (out_dtype self) <$> p.2) /\
    (forall v, p.2 = [v] ->
     tgs = replicate (Z.to_nat (nout self)) (Dtype.cast (out_dtype self) v)).
Proof.
  intros Hinit Hh Hw Hn Hpend Hrs Hp Hcs Hc.
  unfold __init__ in Hinit. destruct (String.eqb _ _); [|discriminate].
  injection Hinit as Hself.
  assert (Hh' : h self = Source.h g) by (by subst self).
  assert (Hw' : w self = Source.w g) by (by subst self).
  assert (Hn' : nout self = Source.nout g) by (by subst self).
  assert (Hnin : nin self = Source.w g * Source.h g) by (by subst self).
  assert (Hcc : collision_check self = true) by (by subst self).
  assert (Hep : enable_perlin self = false) by (by subst self).
  assert (Hgen : Source.pending (gen self) = rejected ++ p :: rest) by (by subst self).
  assert (Hs0 : n_successes self = 0) by (by subst self).
  assert (Hr0 : n_rejections self = 0) by (by subst self).
  clear Hself. rewrite <- Hh' in Hh. rewrite <- Hw' in Hw. rewrite <- Hn' in Hn.
  destruct (full_canvas_shaped self 0 Hh Hw) as (col0 & Ecol & Hcol & _).
  destruct (full_canvas_shaped (A:=pixel) self 0%Q Hh Hw) as (dt0 & Edt & Hdt & Hdt0).
  set (ts0 := replicate (Z.to_nat (nout self)) 0%Q).
  set (fr0 := MkFrame col0 dt0 ts0 0 []).
  assert (Hf0 : frame_ok self fr0) by done.
  assert (Hok : forall q, contract_ok self q -> proposal_ok self fr0 q).
  { intros q [Hq Hl]. split; [done|]. simpl. unfold ts0. by rewrite length_replicate. }
  destruct (mode_b_takes_first self fr0 rejected p rest Hh Hw Hf0) as (fr' & Em & Hpaint & Ht & _);
    [eapply Forall_impl; [exact Hrs|exact Hok]|by apply Hok|done|done|].
  destruct (paint_cells self dt0 p.1 Hh Hw Hdt (proj1 Hp)) as (canvas & Ep & Hcanvas & Hg).
  simpl in Hpaint. rewrite Ep in Hpaint. injection Hpaint as Hcv.
  exists (MkIter (rejected ++ p :: rest) (Some col0) []).
  eexists _, canvas, (targets fr'), _.
  split. { unfold iter_start. rewrite Hcc, Ecol. simpl. by rewrite Hgen. }
  split.
  { unfold next, new_canvas, new_targets. rewrite Hep, Edt. simpl.
    destruct (Z.ltb_spec (nout self) 0); [lia|]. simpl. rewrite Hcc. simpl.
    fold ts0. fold fr0. rewrite Em. simpl. rewrite <- Hcv.
    unfold reshape1. destruct Hcanvas as [_ Hshape]. injection Hshape as -> ->.
    destruct (Z.eqb_spec (nin self) (Z.of_nat (Z.to_nat (h self) * Z.to_nat (w self))));
      [reflexivity|]. exfalso. rewrite Hnin, <- Hh', <- Hw' in *. lia. }
  simpl. split; [lia|]. split; [lia|]. split; [done|]. split; [done|].
  split; [intros i j Hi Hj; by rewrite Hg, Hdt0|].
  apply assign_targets_values in Ht. simpl in Ht. unfold ts0 in Ht.
  by rewrite length_replicate in Ht.
Qed.
End FirstSample.

(** * More on the corruptors *)

Section PyModCases.
Local Open Scope Q_scope.

Lemma Qfloor_unit (q : Q) : 0 <= q -> q < 1 -> Qfloor q = 0%Z.
Proof.
  intros H0 H1.
  pose proof (Qfloor_le q) as Hlo. pose proof (Qlt_floor q) as Hhi.
  assert (Ha : inject_Z (Qfloor q) < inject_Z 1) by (eapply Qle_lt_trans; eauto).
  assert (Hb : inject_Z 0 < inject_Z (Qfloor q + 1)) by (eapply Qle_lt_trans; eauto).
  rewrite <- Zlt_Qlt in Ha, Hb. lia.
Qed.

(** Below the modulus nothing wraps. *)
Lemma py_mod_small (x m : Q) : 0 <= x -> x < m -> py_mod x m == x.
Proof.
  intros H0 Hm. unfold py_mod.
  assert (Hpos : 0 < m) by (eapply Qle_lt_trans; eauto).
  rewrite Qfloor_unit.
  - change (inject_Z 0) with 0. ring.
  - apply Qle_shift_div_l; [done|]. by rewrite Qmult_0_l.
  - apply Qlt_shift_div_r; [done|]. by rewrite Qmult_1_l.
Qed.

(** The modulus itself wraps to zero. *)
Lemma py_mod_self (x m : Q) : 0 < m -> x == m -> py_mod x m == 0.
Proof.
  intros Hm Hx. unfold py_mod.
  assert (Hq : x / m == inject_Z 1).
  { rewrite Hx. change (inject_Z 1) with 1. field. intros E. rewrite E in Hm. discriminate. }
  rewrite (Qfloor_comp _ _ Hq), Qfloor_Z, Hx. change (inject_Z 1) with 1. ring.
Qed.
End PyModCases.

Section MoreCorruptorProperties.
Context `{NumpyRandom}.
Import Corruptors.

(** X11. The identity corruptor returns every input of a sequence of calls
    as it is and never advances its generator. *)
Theorem dummy_calls_identity self xs :
  cls self = DummyCorruptor -> calls self xs = Return (xs, self).
Proof.
  intros Hc. induction xs as [|x xs IH]; simpl; [done|].
  unfold __call__. rewrite Hc. simpl. by rewrite IH.
Qed.

(** X12. Over any sequence of calls a corruptor keeps its class and its
    corruption level, and it returns one output per input, each of the shape
    of its input. *)
Theorem calls_invariant self xs outs self' :
  calls self xs = Return (outs, self') ->
  cls self' = cls self /\ corruption_level self' = corruption_level self /\
  nd_shape <$> outs = nd_shape <$> xs.
Proof.
  revert self outs self'. induction xs as [|x xs IH]; intros self outs self'; simpl.
  - by intros [= <- <-].
  - intros E. apply result_bind_Return in E as ([o s1] & E1 & E).
    apply result_bind_Return in E as ([os s2] & E2 & E). injection E as <- <-.
    apply call_invariant in E1 as (Hc1 & Hl1 & Hs1). apply IH in E2 as (Hc2 & Hl2 & Hs2).
    simpl in *. split; [congruence|]. split; [congruence|].
    by f_equal.
Qed.

(** X13. Cell by cell, on the noise its generator draws, the Gaussian
    corruptor reflects and wraps: where the noisy value [noise + x] is
    within 255 of zero the output is its absolute value, and where it is 255
    or -255 the output is 0; every cell of the input has its output. *)
Theorem gaussian_corrupt_cells (C : NumpyRandomContract) self x noise s' :
  nd_wf x ->
  normal (s_rng self) (nd_shape x) 0%Q (corruption_level self) = Return (noise, s') ->
  exists out,
    GaussianCorruptor_corrupt self x = Return (out, set_s_rng self s') /\
    length (nd_data out) = length (nd_data x) /\
    Forall2 (fun o t =>
               ((Qabs t < 255)%Q -> (o == Qabs t)%Q) /\
               ((Qabs t == 255)%Q -> (o == 0)%Q))
      (nd_data out) (zip_with Qplus (nd_data noise) (nd_data x)).
Proof.
  intros Hx En.
  destruct (gaussian_corrupt_returns C self x noise s' Hx En) as [E Hl].
  eexists. split; [exact E|]. simpl. split.
  - rewrite length_zip_with. rewrite Hl. apply Nat.min_id.
  - apply Forall2_zip_with. intros n v. split.
    + intros Hlt. apply py_mod_small; [apply Qabs_nonneg|done].
    + intros Heq. by apply py_mod_self.
Qed.
End MoreCorruptorProperties.

Section MoreGetProperties.
Import Corruptors.

(** X14. The factory returns an object exactly when the name is bound to a
    class of the Corruptor hierarchy, and then returns that class; in
    corruptor.py these are the four class names and no other name. *)
Theorem get_resolves_exactly :
  (forall (globals : gmap string pyobj) name obj,
     get globals name = Return obj <->
     globals !! name = Some obj /\ exists k, obj = PyClass k /\ Corruptor ∈ mro k) /\
  (forall name obj,
     get module_globals name = Return obj <->
     (name, obj) ∈ [("Corruptor"%string, PyClass Corruptor);
                    ("DummyCorruptor"%string, PyClass DummyCorruptor);
                    ("BinomialCorruptor"%string, PyClass BinomialCorruptor);
                    ("GaussianCorruptor"%string, PyClass GaussianCorruptor)]).
Proof.
  assert (Hgen : forall (globals : gmap string pyobj) name obj,
     get globals name = Return obj <->
     globals !! name = Some obj /\ exists k, obj = PyClass k /\ Corruptor ∈ mro k).
  { intros globals name obj. rewrite get_cases. split.
    - destruct (globals !! name) as [[k| | | |]|]; try discriminate.
      case_bool_decide; [|discriminate]. intros [= <-]. eauto.
    - intros [-> (k & -> & Hk)]. by rewrite bool_decide_true. }
  split; [exact Hgen|]. intros name obj. rewrite Hgen. split.
  - intros [Hl (k & -> & Hk)]. unfold module_globals in Hl.
    apply elem_of_list_to_map_2 in Hl.
    repeat (apply elem_of_cons in Hl as [Hl|Hl];
            [simplify_eq; apply list_elem_of_In; simpl; tauto|]).
    by apply elem_of_nil in Hl.
  - intros Hin.
    repeat (apply elem_of_cons in Hin as [Hin|Hin];
            [injection Hin as -> ->; split;
             [by vm_compute|eexists; split; [done|apply list_elem_of_In; simpl; tauto]]|]).
    by apply elem_of_nil in Hin.
Qed.
End MoreGetProperties.

(** * The cell-level facts on concrete inputs *)

Section SceneExamples.
Import Examples MoreExamples SpritePlacer Scene.
#[local] Existing Instance counting_noise.

Lemma dim_wf : Sprite.wf dim.
Proof. split; try (vm_compute; congruence); try reflexivity; repeat constructor. Qed.

Lemma canvas88_shaped : canvas_shaped (placer88 counting_noise false) (constant 8 8 0).
Proof. repeat split; repeat constructor. Qed.

Lemma canvas88q_shaped : canvas_shaped (placer88 counting_noise false) (constant 8 8 0%Q).
Proof. repeat split; repeat constructor. Qed.

Lemma overlapping_placements : Forall (placement_ok (placer88 counting_noise false)) overlapping.1.
Proof. repeat constructor; try apply block_wf; simpl; lia. Qed.

Lemma disjoint_placements : Forall (placement_ok (placer88 counting_noise false)) disjoint.1.
Proof. repeat constructor; try apply block_wf; simpl; lia. Qed.

Lemma layered_placements : Forall (placement_ok (placer88 counting_noise false)) layered.
Proof. repeat constructor; try apply block_wf; try apply dim_wf; simpl; lia. Qed.

Lemma overlapping_ok :
  proposal_ok (placer88 counting_noise false) (frame88 counting_noise) overlapping.
Proof. split; [apply overlapping_placements|left; reflexivity]. Qed.

Lemma overlapping_detected : collision_detected (placer88 counting_noise false) overlapping.1.
Proof. exists 2%nat, 1%nat. split; [simpl; lia|]. split; [simpl; lia|]. by vm_compute. Qed.

Lemma disjoint_clear : ~ collision_detected (placer88 counting_noise false) disjoint.1.
Proof.
  intros (i & j & Hi & Hj & Ho). simpl in Hi, Hj.
  do 7 (destruct i as [|i]; [do 7 (destruct j as [|j]; [by vm_compute in Ho|]); lia|]).
  lia.
Qed.

(** The overlap the test does not see: two sprites on one cell of the last
    column. *)
Lemma stacked_overlap_undetected :
  masks_overlap (placer88 counting_noise false) stacked.1 /\
  ~ collision_detected (placer88 counting_noise false) stacked.1.
Proof.
  split.
  - exists 3%nat, 7%nat. split; [simpl; lia|]. split; [simpl; lia|]. by vm_compute.
  - intros (i & j & Hi & Hj & Ho). simpl in Hi, Hj.
    do 7 (destruct i as [|i]; [do 7 (destruct j as [|j]; [by vm_compute in Ho|]); lia|]).
    lia.
Qed.

(** A vector of unsigned bytes stores 300 as 44 and 7/2 as 3; one of signed
    bytes stores 200 as -56. *)
Lemma cast_examples :
  Dtype.cast (Dtype.UInt 8) 300 = 44%Q /\
  Dtype.cast (Dtype.UInt 8) (7 # 2) = 3%Q /\
  Dtype.cast (Dtype.Int 8) 200 = (-56)%Q /\
  Dtype.cast (Dtype.Int 8) (- (7 # 2)) = (-3)%Q /\
  Dtype.cast Dtype.Bool (7 # 2) = 1%Q /\
  Dtype.cast (Dtype.Float 32) (7 # 2) = (7 # 2)%Q.
Proof. repeat split. Qed.

Lemma accumulate_cells_witness :
  canvas_shaped (placer88 counting_noise false) (constant 8 8 0) /\
  Forall (placement_ok (placer88 counting_noise false)) overlapping.1 /\
  exists col',
    accumulate (placer88 counting_noise false) (constant 8 8 0) overlapping.1 = Return col' /\
    get col' 3 2 = Some 2 /\ get col' 3 0 = Some 1 /\ get col' 0 0 = Some 0.
Proof.
  split; [apply canvas88_shaped|]. split; [apply overlapping_placements|].
  destruct (accumulate_cells (placer88 counting_noise false) (constant 8 8 0) overlapping.1
              canvas88_shaped overlapping_placements) as (col' & E & _ & Hg).
  exists col'. split; [exact E|]. rewrite !Hg. by vm_compute.
Defined.

Lemma trial_verdict_witness :
  frame_ok (placer88 counting_noise false) (frame88 counting_noise) /\
  proposal_ok (placer88 counting_noise false) (frame88 counting_noise) overlapping /\
  collision_detected (placer88 counting_noise false) overlapping.1 /\
  exists self' fr',
    trial (placer88 counting_noise false) (frame88 counting_noise) overlapping
    = Return (Rejected, self', fr').
Proof.
  split; [apply frame88_ok|]. split; [apply overlapping_ok|].
  split; [apply overlapping_detected|].
  destruct (trial_verdict (placer88 counting_noise false) (frame88 counting_noise) overlapping)
    as (v & self' & fr' & E & _ & _ & Hv);
    [simpl; lia|simpl; lia|apply frame88_ok|apply overlapping_ok|].
  exists self', fr'. rewrite E. by rewrite (proj2 Hv overlapping_detected).
Defined.

Lemma mode_b_first_fit_witness :
  Forall (fun q : proposal => collision_detected (placer88 counting_noise false) q.1) [overlapping] /\
  ~ collision_detected (placer88 counting_noise false) disjoint.1 /\
  exists fr',
    mode_b (placer88 counting_noise false) (frame88 counting_noise) [overlapping; disjoint]
    = (set_n_successes (set_n_rejections (placer88 counting_noise false) 1) 1,
       Return (fr', [])).
Proof.
  assert (Hc : Forall (fun q : proposal => collision_detected (placer88 counting_noise false) q.1)
                 [overlapping]) by (constructor; [apply overlapping_detected|constructor]).
  split; [exact Hc|]. split; [apply disjoint_clear|].
  destruct (mode_b_first_fit (placer88 counting_noise false) (frame88 counting_noise)
              [overlapping] disjoint [])
    as (fr' & E & _); [simpl; lia|simpl; lia|apply frame88_ok| |apply disjoint_ok|exact Hc|
                       apply disjoint_clear|].
  { constructor; [apply overlapping_ok|constructor]. }
  exists fr'. exact E.
Defined.

Lemma mode_b_all_rejected_witness :
  Forall (fun q : proposal => collision_detected (placer88 counting_noise false) q.1)
    [overlapping; overlapping] /\
  mode_b (placer88 counting_noise false) (frame88 counting_noise) [overlapping; overlapping]
  = (set_n_rejections (placer88 counting_noise false) 2, Raise StopIteration).
Proof.
  assert (Hc : Forall (fun q : proposal => collision_detected (placer88 counting_noise false) q.1)
                 [overlapping; overlapping])
    by (repeat (constructor; [apply overlapping_detected|]); constructor).
  split; [exact Hc|].
  apply (mode_b_all_rejected (placer88 counting_noise false) (frame88 counting_noise)
           [overlapping; overlapping]);
    [simpl; lia|simpl; lia|apply frame88_ok| |exact Hc].
  repeat (constructor; [apply overlapping_ok|]); constructor.
Defined.

Lemma accumulate_Permutation_witness :
  [((5, 5), block); ((1, 1), block)] ≡ₚ disjoint.1 /\
  accumulate (placer88 counting_noise false) (constant 8 8 0) disjoint.1
  = accumulate (placer88 counting_noise false) (constant 8 8 0)
      [((5, 5), block); ((1, 1), block)].
Proof.
  split; [apply perm_swap|].
  apply accumulate_Permutation; [apply canvas88_shaped|apply disjoint_placements|apply perm_swap].
Defined.

Lemma paint_last_writer_wins_witness :
  Forall (placement_ok (placer88 counting_noise false)) layered /\
  exists dt',
    paint (constant 8 8 0%Q) layered = Return dt' /\
    get dt' 3 2 = Some 7%Q /\ get dt' 3 1 = Some 255%Q /\ get dt' 0 0 = Some 0%Q.
Proof.
  split; [apply layered_placements|].
  destruct (paint_last_writer_wins (placer88 counting_noise false) (constant 8 8 0%Q) layered)
    as (dt' & E & _ & Hg);
    [simpl; lia|simpl; lia|apply canvas88q_shaped|apply layered_placements|].
  exists dt'. split; [exact E|]. split; [|split].
  - apply (proj2 (Hg 3%nat 2%nat) [((1, 3), block)] ((2, 3), dim) []);
      [reflexivity|reflexivity|constructor|simpl; lia|simpl; lia].
  - apply (proj2 (Hg 3%nat 1%nat) [] ((1, 3), block) [((2, 3), dim)]);
      [reflexivity|reflexivity|by repeat constructor|simpl; lia|simpl; lia].
  - rewrite (proj1 (Hg 0%nat 0%nat)); [reflexivity|by repeat constructor].
Defined.

Lemma mode_a_never_rejects_witness :
  collision_check (placer88a counting_noise) = false /\
  n_rejections (next (placer88a counting_noise) (iter88a counting_noise)).1 = 0 /\
  n_successes (next (placer88a counting_noise) (iter88a counting_noise)).1 = 1.
Proof.
  destruct (mode_a_never_rejects (placer88a counting_noise) (iter88a counting_noise) eq_refl)
    as [Hr Hs].
  split; [reflexivity|]. split; [exact Hr|].
  destruct (next (placer88a counting_noise) (iter88a counting_noise))
    as [self' [[smp it']|e]] eqn:E; [|by vm_compute in E].
  exact (proj1 (Hs self' smp it' eq_refl)).
Defined.

Lemma sample_lengths_witness :
  exists self' smp it',
    next (placer88 counting_noise false) (iter88 counting_noise) = (self', Return (smp, it')) /\
    length smp.1 = 64%nat /\ length smp.2 = 1%nat.
Proof.
  destruct (next (placer88 counting_noise false) (iter88 counting_noise))
    as [self' [[smp it']|e]] eqn:E; [|by vm_compute in E].
  exists self', smp, it'. split; [reflexivity|].
  destruct (sample_lengths (placer88 counting_noise false) (iter88 counting_noise) self' smp it')
    as [Hl Ht]; [discriminate|exact E|].
  simpl in Hl, Ht. split; [lia|exact Ht].
Defined.

Lemma first_sample_mode_b_witness :
  __init__ (source88 "array") true false = Return (placer88 counting_noise false) /\
  exists it0 self' canvas tgs it',
    iter_start (placer88 counting_noise false) = Return it0 /\
    next (placer88 counting_noise false) it0
    = (self', Return ((concat (rows canvas), tgs), it')) /\
    n_rejections self' = 1 /\ n_successes self' = 1 /\ it_gen it' = [] /\
    tgs = [1%Q].
Proof.
  split; [reflexivity|].
  destruct (first_sample_mode_b (source88 "array") (placer88 counting_noise false)
              [overlapping] disjoint [])
    as (it0 & self' & canvas & tgs & it' & E0 & E & Hr & Hs & Hg & _ & _ & Ht & _);
    [reflexivity|simpl; lia|simpl; lia|simpl; lia|reflexivity| | | |apply disjoint_clear|].
  - constructor; [|constructor]. split; [apply overlapping_placements|by left].
  - split; [apply disjoint_placements|by left].
  - constructor; [apply overlapping_detected|constructor].
  - exists it0, self', canvas, tgs, it'. repeat (split; [done|]).
    exact (Ht eq_refl).
Defined.

Lemma mode_b_warnings_witness :
  exists self' fr',
    mode_b (placer88 counting_noise false) (frame999 counting_noise)
      [overlapping; overlapping; disjoint]
    = (self', Return (fr', [])) /\
    stderr fr' = [1000].
Proof.
  destruct (mode_b (placer88 counting_noise false) (frame999 counting_noise)
              [overlapping; overlapping; disjoint]) as [self' [[fr' rest]|e]] eqn:E;
    [|by vm_compute in E].
  assert (Hrest : rest = []) by (vm_compute in E; by injection E as _ _ <-).
  assert (Hn : ntrials fr' = 1002) by (vm_compute in E; by injection E as _ <- _).
  subst rest. exists self', fr'. split; [reflexivity|].
  rewrite (mode_b_warnings _ _ _ _ _ _ E), Hn. reflexivity.
Defined.
End SceneExamples.

Section MoreCorruptorExamples.
Import Corruptors CorruptorExamples.
#[local] Existing Instance Lcg.random.

Lemma dummy_calls_identity_witness :
  cls (seeded DummyCorruptor 0) = DummyCorruptor /\
  calls (seeded DummyCorruptor 0) [x22; x22] = Return ([x22; x22], seeded DummyCorruptor 0).
Proof. split; [reflexivity|]. by apply dummy_calls_identity. Defined.

Lemma calls_invariant_witness :
  exists outs self',
    calls (seeded BinomialCorruptor (1 # 2)) [x22; x22] = Return (outs, self') /\
    cls self' = BinomialCorruptor /\ corruption_level self' = 1 # 2 /\
    nd_shape <$> outs = [[2; 2]; [2; 2]]%nat.
Proof.
  destruct (calls (seeded BinomialCorruptor (1 # 2)) [x22; x22]) as [[outs self']|e] eqn:E;
    [|discriminate].
  exists outs, self'. split; [reflexivity|].
  exact (calls_invariant _ _ _ _ E).
Defined.

Lemma gaussian_corrupt_cells_witness :
  nd_wf x22 /\
  exists noise s' out,
    normal rng2001 [2; 2]%nat 0%Q 300%Q = Return (noise, s') /\
    GaussianCorruptor_corrupt (seeded GaussianCorruptor 300) x22
    = Return (out, set_s_rng (seeded GaussianCorruptor 300) s') /\
    Forall2 (fun o t =>
               ((Qabs t < 255)%Q -> (o == Qabs t)%Q) /\
               ((Qabs t == 255)%Q -> (o == 0)%Q))
      (nd_data out) (zip_with Qplus (nd_data noise) (nd_data x22)).
Proof.
  split; [exact x22_wf|].
  destruct (normal rng2001 [2; 2]%nat 0%Q 300%Q) as [[noise s']|e] eqn:En;
    [|discriminate].
  destruct (gaussian_corrupt_cells lcg_contract (seeded GaussianCorruptor 300) x22 noise s'
              x22_wf En) as (out & E & _ & Hf).
  by exists noise, s', out.
Defined.
End MoreCorruptorExamples.

Section EdgeFacts.
Context `{PerlinNoiseGenerator}.
Import SpritePlacer NumpyFacts Scene.

(** A patch that starts on an axis of the canvas and runs past its end is not
    broadcastable to what is left of the axis. *)
Lemma axis_overflow (n pn : nat) (pos size : Z) :
  0 <= pos < Z.of_nat n -> Z.of_nat n < pos + size -> pn = Z.to_nat size ->
  broadcastable pn (slice_index n (pos + size) - slice_index n pos) = false.
Proof.
  intros Hp Ho ->. rewrite !slice_index_nonneg by lia. unfold broadcastable.
  apply orb_false_iff. split; apply Nat.eqb_neq; lia.
Qed.

(** X15. A sprite whose patch runs past the right or the bottom edge of the
    canvas is not clipped when painted: the assignment raises [ValueError],
    and in Mode A the step ends there without counting a success. *)
Theorem paint_overflow_raises self (dt : array2 pixel) x y sp rest tg ts pending :
  canvas_shaped self dt -> Sprite.wf sp ->
  (0 <= x < w self /\ w self < x + Sprite.w sp) \/
  (0 <= y < h self /\ h self < y + Sprite.h sp) ->
  paint dt (((x, y), sp) :: rest) = Raise ValueError /\
  mode_a self dt ts ((((x, y), sp) :: rest, tg) :: pending) = (self, Raise ValueError).
Proof.
  intros [Hr Hs] Hwf Hover. injection Hs as Hnr Hnc.
  destruct Hwf as [Hsh Hsw _ _ _ _ _ _ Spatch _]. injection Spatch as Pnr Pnc.
  assert (E : paint dt (((x, y), sp) :: rest) = Raise ValueError).
  { simpl. unfold assign_slice, update_slice.
    destruct Hover as [[Hx Ho]|[Hy Ho]].
    - rewrite (axis_overflow (ncols dt) (ncols (Sprite.patch sp)) x (Sprite.w sp)) by lia.
      by rewrite andb_false_r.
    - by rewrite (axis_overflow (nrows dt) (nrows (Sprite.patch sp)) y (Sprite.h sp)) by lia. }
  split; [exact E|]. unfold mode_a. by rewrite E.
Qed.

Lemma next_yield_counts self it self' r :
  next self it = (self', Return r) ->
  n_successes self' = n_successes self + 1 /\ n_rejections self <= n_rejections self'.
Proof.
  intros E. pose proof (next_monotone self it) as [_ Hr]. rewrite E in Hr. split; [|done].
  revert E. unfold next.
  pose proof (new_canvas_counters self) as (Hs & _ & _).
  destruct (new_canvas self) as [self1 [data0|e]]; simpl in *; [|discriminate].
  destruct (new_targets self1) as [t0|e]; simpl; [|discriminate].
  destruct (collision_check self1); simpl.
  - destruct (it_collider it) as [c0|]; [|discriminate].
    destruct (mode_b _ _ _) as [self2 [[fr rest]|e]] eqn:Hm; [|discriminate].
    apply mode_b_returns in Hm as (rej & q & _ & -> & _).
    destruct (reshape1 _ _); simpl; [|discriminate]. intros [= <- <-]. simpl. lia.
  - unfold mode_a. destruct (it_gen it) as [|[desc tg] ps]; [discriminate|].
    destruct (paint data0 desc ≫= _) as [[d' t']|e]; simpl; [|discriminate].
    destruct (reshape1 _ _); simpl; [|discriminate]. intros [= <- <-]. simpl. lia.
Qed.

(** X16. Once the generator has yielded a sample, in either mode, the
    rejection rate is defined and lies in [0, 1). *)
Theorem rejection_rate_after_yield self it self' r :
  0 <= n_successes self -> 0 <= n_rejections self ->
  next self it = (self', Return r) ->
  exists q, (rejection_rate self').1 = Some q /\ (0 <= q)%Q /\ (q < 1)%Q.
Proof.
  intros Hs Hr E. apply next_yield_counts in E as [Hs' Hr'].
  unfold rejection_rate.
  destruct (Z.eqb_spec (n_successes self' + n_rejections self') 0) as [E0|E0]; [lia|].
  eexists. split; [reflexivity|].
  assert (Hpos : (0 < inject_Z (n_successes self' + n_rejections self'))%Q).
  { change 0%Q with (inject_Z 0). rewrite <- Zlt_Qlt. lia. }
  split.
  - apply Qle_shift_div_l; [done|]. rewrite Qmult_0_l.
    change 0%Q with (inject_Z 0). rewrite <- Zle_Qle. lia.
  - apply Qlt_shift_div_r; [done|]. rewrite Qmult_1_l. rewrite <- Zlt_Qlt. lia.
Qed.
End EdgeFacts.

Section EdgeExamples.
Import Examples MoreExamples SpritePlacer Scene.
#[local] Existing Instance counting_noise.

Lemma paint_overflow_raises_witness :
  canvas_shaped (placer88 counting_noise false) (constant 8 8 0%Q) /\
  Sprite.wf block /\
  paint (constant 8 8 0%Q) [((7, 3), block)] = Raise ValueError.
Proof.
  split; [apply canvas88q_shaped|]. split; [apply block_wf|].
  apply (paint_overflow_raises (placer88 counting_noise false) (constant 8 8 0%Q)
           7 3 block [] [] [] []);
    [apply canvas88q_shaped|apply block_wf|left; simpl; lia].
Defined.

Lemma rejection_rate_after_yield_witness :
  exists self' r q,
    next (placer88 counting_noise false) (iter88 counting_noise) = (self', Return r) /\
    (rejection_rate self').1 = Some q /\ (0 <= q)%Q /\ (q < 1)%Q.
Proof.
  destruct (next (placer88 counting_noise false) (iter88 counting_noise))
    as [self' [r|e]] eqn:E; [|by vm_compute in E].
  destruct (rejection_rate_after_yield (placer88 counting_noise false) (iter88 counting_noise)
              self' r) as (q & Hq); [simpl; lia|simpl; lia|exact E|].
  by exists self', r, q.
Defined.
End EdgeExamples.
